(** * k-means clustering (kmeans.py): a shallow embedding and its properties

    The development follows [kmeans.py] function by function.  Python
    exceptions are kept as an explicit result type, [print] as the list of
    lines written to standard output, and the float arithmetic the program
    uses as an interface ([PyNum]) so that every structural property is proved
    for any arithmetic; binary64 floats are one instance, used to run the
    program on concrete inputs. *)

From Stdlib Require Import ZArith Floats Ascii.
From Stdlib Require String.
From stdpp Require Import base list strings pretty.
From Equations Require Import Equations.

Local Open Scope Z_scope.

(** ** Exceptions and results *)

Inductive exn : Set :=
| ValueError
| IndexError
| ZeroDivisionError
| OverflowError
| UnboundLocalError.

Inductive res (A : Type) : Type :=
| Ok (a : A)
| Raise (e : exn).
Arguments Ok {A} a.
Arguments Raise {A} e.

Global Instance res_ret : MRet res := fun A a => Ok a.
Global Instance res_bind : MBind res := fun A B f m =>
  match m with
  | Ok a => f a
  | Raise e => Raise e
  end.

(** A [for] loop whose body may raise: the state is threaded through the
    items in order and the first exception ends the loop. *)
Fixpoint for_each {S X : Type} (body : S → X → res S) (s : S) (xs : list X) : res S :=
  match xs with
  | [] => Ok s
  | x :: xs' =>
      match body s x with
      | Ok s' => for_each body s' xs'
      | Raise e => Raise e
      end
  end.

(** A list comprehension whose element expression may raise. *)
Fixpoint comprehension {X Y : Type} (f : X → res Y) (xs : list X) : res (list Y) :=
  match xs with
  | [] => Ok []
  | x :: xs' =>
      match f x with
      | Ok y =>
          match comprehension f xs' with
          | Ok ys => Ok (y :: ys)
          | Raise e => Raise e
          end
      | Raise e => Raise e
      end
  end.

(** [l[i]] for a non-negative index. *)
Definition index {A : Type} (l : list A) (i : nat) : res A :=
  match l !! i with
  | Some x => Ok x
  | None => Raise IndexError
  end.

(** A value together with the equation that it is the value of the
    expression, for the termination argument of the [while] loop. *)
Definition inspect {A : Type} (a : A) : {b : A | a = b} := exist _ a eq_refl.

(** [range(n)] *)
Definition range (n : nat) : list nat := seq 0 n.

(** ** The numbers of the program

    The operations [kmeans.py] applies to coordinates and distances, each
    with the meaning it has in Python.  [int0] is the integer [0] that
    [[0] * dim] puts in a fresh centroid; [fadd], [fsub] are [+] and [-];
    [fsum] is the builtin [sum] on the numbers a generator produced (how it
    accumulates them is the interpreter's matter); [fsquare] is [x ** 2],
    which CPython computes with [pow] and which raises [OverflowError] when
    the result leaves the float range ([None] here); [froot] is [x ** 0.5],
    applied to sums of squares only, so that its result is a float again;
    [fdiv_len x n] is [x / n] for a list length [n > 0]; [flt], [fgt] and
    [feq] are [<], [>] and [==]; [lit_0_001] is the value of the literal
    [0.001]; [pyfloat] is the builtin [float] on a string ([None] for
    [ValueError]) and [fmt4] the format [f"{x:.4f}"]. *)
Class PyNum (F : Type) : Type := {
  int0 : F;
  fadd : F → F → F;
  fsub : F → F → F;
  fsum : list F → F;
  fsquare : F → option F;
  froot : F → F;
  fdiv_len : F → nat → F;
  flt : F → F → bool;
  fgt : F → F → bool;
  feq : F → F → bool;
  lit_0_001 : F;
  pyfloat : string → option F;
  fmt4 : F → string
}.

Section Kmeans.
Context {F : Type} `{PyNum F}.

(** A vector: the list of its coordinates. *)
Local Abbreviation vector := (list F) (only parsing).

(** [x ** 2] *)
Definition pow2 (x : F) : res F :=
  match fsquare x with
  | Some y => Ok y
  | None => Raise OverflowError
  end.

(** [x / n]: true division by an integer. *)
Definition truediv (x : F) (n : nat) : res F :=
  match n with
  | O => Raise ZeroDivisionError
  | S _ => Ok (fdiv_len x n)
  end.

(** ** euclidean_distance *)

(** The [i]-th item of the generator
    [(point[i] - centroid[i]) ** 2 for i in range(len(point))]. *)
Definition squared_diff (point centroid : vector) (i : nat) : res F :=
  p ← index point i;
  c ← index centroid i;
  pow2 (fsub p c).

(** [sum(gen)]: the generator produces its items in order, the first
    exception ends the call, and [sum] returns the total of the items. *)
Definition py_sum {X : Type} (item : X → res F) (xs : list X) : res F :=
  items ← comprehension item xs;
  Ok (fsum items).

Definition euclidean_distance (point centroid : vector) : res F :=
  s ← py_sum (squared_diff point centroid) (range (length point));
  Ok (froot s).

(** ** assign_clusters *)

(** [min(distances)]: the scan keeps the first item and replaces it only by
    a strictly smaller one.  The result is an object of the list: its
    position is kept next to its value, because [list.index] below compares
    by identity before it compares by [==]. *)
Fixpoint min_scan (best : nat * F) (i : nat) (l : list F) : nat * F :=
  match l with
  | [] => best
  | x :: l' => min_scan (if flt x best.2 then (i, x) else best) (S i) l'
  end.

Definition py_min (ds : list F) : res (nat * F) :=
  match ds with
  | [] => Raise ValueError
  | x :: l => Ok (min_scan (O, x) 1%nat l)
  end.

(** [ds.index(m)]: the first position whose item is [m] itself or equals it. *)
Fixpoint index_from (i : nat) (m : nat * F) (ds : list F) : res nat :=
  match ds with
  | [] => Raise ValueError
  | x :: l => if Nat.eqb i m.1 || feq x m.2 then Ok i else index_from (S i) m l
  end.

Definition py_list_index (ds : list F) (m : nat * F) : res nat := index_from O m ds.

(** The two first lines of the loop body of [assign_clusters]. *)
Definition distances_of (v : vector) (centroids : list vector) : res (list F) :=
  comprehension (euclidean_distance v) centroids.

Definition closest_centroid (v : vector) (centroids : list vector) : res nat :=
  distances ← distances_of v centroids;
  m ← py_min distances;
  py_list_index distances m.

(** [clusters[c].append(v)] *)
Definition append_to (clusters : list (list vector)) (c : nat) (v : vector)
  : res (list (list vector)) :=
  match clusters !! c with
  | Some _ => Ok (alter (fun b => b ++ [v]) c clusters)
  | None => Raise IndexError
  end.

Definition assign_clusters (vectors centroids : list vector) : res (list (list vector)) :=
  let k := length centroids in
  for_each (fun clusters v =>
              c ← closest_centroid v centroids;
              append_to clusters c v)
           (replicate k []) vectors.

(** ** update_centroids *)

(** [for i in range(dim): new_centroid[i] += point[i]] *)
Definition add_point (dim : nat) (new_centroid point : vector) : res vector :=
  for_each (fun acc i =>
              a ← index acc i;
              p ← index point i;
              Ok (<[i := fadd a p]> acc))
           new_centroid (range dim).

(** [for i in range(dim): new_centroid[i] /= count] *)
Definition divide_all (dim : nat) (new_centroid : vector) (count : nat) : res vector :=
  for_each (fun acc i =>
              a ← index acc i;
              q ← truediv a count;
              Ok (<[i := q]> acc))
           new_centroid (range dim).

(** The mean as the branch for a non-empty bucket computes it. *)
Definition bucket_mean (bucket : list vector) : res vector :=
  match bucket with
  | [] => Raise IndexError
  | first :: _ =>
      let dim := length first in
      summed ← for_each (add_point dim) (replicate dim int0) bucket;
      divide_all dim summed (length bucket)
  end.

(** One pass of the loop [for j in range(k)]; the state is
    [(new_centroids, flag)]. *)
Definition update_step (clusters : list (list vector)) (centroids : list vector) (eps : F)
    (st : list vector * bool) (j : nat) : res (list vector * bool) :=
  bucket ← index clusters j;
  match bucket with
  | _ :: _ =>
      new_centroid ← bucket_mean bucket;
      old ← index centroids j;
      d ← euclidean_distance old new_centroid;
      Ok (st.1 ++ [new_centroid], if fgt d eps then false else st.2)
  | [] =>
      old ← index centroids j;
      Ok (st.1 ++ [old], st.2)
  end.

Definition update_centroids (clusters : list (list vector)) (centroids : list vector) (eps : F)
  : res (list vector * bool) :=
  let k := length centroids in
  for_each (update_step clusters centroids eps) ([], true) (range k).

(** What pass [j] of the loop of [update_centroids] appends to
    [new_centroids], and whether it clears the flag: the body of the loop
    without the two variables it updates. *)
Definition centroid_outcome (clusters : list (list vector)) (centroids : list vector)
    (eps : F) (j : nat) : res (vector * bool) :=
  bucket ← index clusters j;
  match bucket with
  | _ :: _ =>
      new_centroid ← bucket_mean bucket;
      old ← index centroids j;
      d ← euclidean_distance old new_centroid;
      Ok (new_centroid, fgt d eps)
  | [] =>
      old ← index centroids j;
      Ok (old, false)
  end.

(** ** validate_vector_dimensions, initialize_centroids, print_results

    A function that prints returns the printed lines next to its value. *)

Definition generic_error : string := "An Error Has Occurred".
Definition invalid_clusters : string := "Invalid number of clusters!".
Definition invalid_iterations : string := "Invalid maximum iteration!".

Definition validate_vector_dimensions (vectors : list vector) : bool * list string :=
  match vectors with
  | [] => (false, [generic_error])
  | first :: _ =>
      let vector_dim := length first in
      if forallb (fun v => Nat.eqb (length v) vector_dim) vectors
      then (true, [])
      else (false, [generic_error])
  end.

Definition initialize_centroids (vectors : list vector) (k : Z)
  : res (option (list vector * Z)) * list string :=
  if Z.of_nat (length vectors) <=? k then (Ok None, [invalid_clusters])
  else (c ← comprehension (index vectors) (range (Z.to_nat k)); Ok (Some (c, k)), []).

Definition format_centroid (centroid : vector) : string :=
  String.concat "," (map fmt4 centroid).

Definition print_results (clusters : list (list vector)) (centroids : list vector)
  : list string :=
  map format_centroid centroids.

(** ** kmeans_clustering *)

(** The variables of the loop.  [clusters] is unbound until the body has run
    once.  [checks] is a ghost counter: the number of calls of
    [update_centroids], the only place where convergence is tested. *)
Record loop_state : Type := LoopState {
  curr_iter : Z;
  converged : bool;
  clusters : option (list (list vector));
  centroids : list vector;
  checks : nat
}.

Definition loop_cond (max_iter : Z) (st : loop_state) : bool :=
  negb (converged st) && (curr_iter st <? max_iter).

Definition loop_body (vectors : list vector) (eps : F) (st : loop_state) : res loop_state :=
  let curr_iter' := curr_iter st + 1 in
  clusters' ← assign_clusters vectors (centroids st);
  r ← update_centroids clusters' (centroids st) eps;
  Ok (LoopState curr_iter' r.2 (Some clusters') r.1 (S (checks st))).

Equations? kmeans_loop (max_iter : Z) (vectors : list vector) (eps : F) (st : loop_state)
  : res loop_state by wf (Z.to_nat (max_iter - curr_iter st)) lt :=
  kmeans_loop max_iter vectors eps st with converged st => {
    | true := Ok st
    | false with decide (curr_iter st < max_iter) => {
        | right _ := Ok st
        | left _ with inspect (loop_body vectors eps st) => {
            | exist _ (Raise e) _ := Raise e
            | exist _ (Ok st') Hbody := kmeans_loop max_iter vectors eps st' } } }.
Proof.
  unfold loop_body in Hbody.
  destruct (assign_clusters vectors (centroids st)) as [cl|]; [|discriminate].
  simpl in Hbody.
  destruct (update_centroids cl (centroids st) eps) as [r|]; [|discriminate].
  injection Hbody as <-. simpl. lia.
Qed.

Definition default_eps : F := lit_0_001.

Definition initial_state (centroids : list vector) : loop_state :=
  LoopState 0 false None centroids 0.

(** The value [kmeans_clustering] returns ([None] on a rejected input), or
    the exception it raises, with the lines it printed. *)
Definition kmeans_clustering (k max_iter : Z) (vectors : list vector) (eps : option F)
  : res (option (list (list vector))) * list string :=
  let eps := default default_eps eps in
  let '(valid, out) := validate_vector_dimensions vectors in
  if negb valid then (Ok None, out)
  else
    match initialize_centroids vectors k with
    | (Raise e, out) => (Raise e, out)
    | (Ok None, out) => (Ok None, out)
    | (Ok (Some (cents, k)), out) =>
        match kmeans_loop max_iter vectors eps (initial_state cents) with
        | Raise e => (Raise e, out)
        | Ok st =>
            match clusters st with
            | None => (Raise UnboundLocalError, out)
            | Some cl => (Ok (Some cl), out ++ print_results cl (centroids st))
            end
        end
    end.

End Kmeans.

Abbreviation vector F := (list F) (only parsing).
Global Arguments loop_state : clear implicits.

(** ** Strings: [str.strip], [str.split(',')] and [int]

    Strings are sequences of ASCII characters.  [is_space] is the
    whitespace of [str.strip]. *)

Definition is_space (c : ascii) : bool :=
  let n := nat_of_ascii c in
  ((9 <=? n)%nat && (n <=? 13)%nat) || ((28 <=? n)%nat && (n <=? 32)%nat).

Fixpoint lstrip (s : list ascii) : list ascii :=
  match s with
  | c :: s' => if is_space c then lstrip s' else s
  | [] => []
  end.

Definition strip (s : list ascii) : list ascii :=
  rev (lstrip (rev (lstrip s))).

Definition py_strip (s : string) : string :=
  String.string_of_list_ascii (strip (String.list_ascii_of_string s)).

(** [s.split(sep)]: the pieces between the separators, at least one piece. *)
Fixpoint split_on (sep : ascii) (piece : list ascii) (s : list ascii) : list (list ascii) :=
  match s with
  | [] => [rev piece]
  | c :: s' =>
      if Ascii.eqb c sep then rev piece :: split_on sep [] s'
      else split_on sep (c :: piece) s'
  end.

Definition py_split (sep : ascii) (s : string) : list string :=
  map String.string_of_list_ascii (split_on sep [] (String.list_ascii_of_string s)).

Definition digit_value (c : ascii) : option Z :=
  let n := nat_of_ascii c in
  if (48 <=? n)%nat && (n <=? 57)%nat then Some (Z.of_nat (n - 48)) else None.

(** Decimal digits, where one underscore may stand between two digits.
    [after_digit] tells whether the previous character was a digit. *)
Fixpoint int_digits (acc : Z) (after_digit : bool) (s : list ascii) : option Z :=
  match s with
  | [] => if after_digit then Some acc else None
  | c :: s' =>
      if Ascii.eqb c "_" then
        if after_digit then int_digits acc false s' else None
      else
        match digit_value c with
        | Some d => int_digits (10 * acc + d) true s'
        | None => None
        end
  end.

(** The whitespace [int] and [float] skip around a numeral: tab, line feed,
    vertical tab, form feed, carriage return and space.  (Unlike
    [str.strip], they do not skip the separators 28 to 31.) *)
Definition is_numeral_space (c : ascii) : bool :=
  let n := nat_of_ascii c in
  ((9 <=? n)%nat && (n <=? 13)%nat) || (n =? 32)%nat.

Fixpoint lstrip_numeral (s : list ascii) : list ascii :=
  match s with
  | c :: s' => if is_numeral_space c then lstrip_numeral s' else s
  | [] => []
  end.

Definition strip_numeral (s : list ascii) : list ascii :=
  rev (lstrip_numeral (rev (lstrip_numeral s))).

(** The most digits [int] converts (CPython's default limit). *)
Definition int_max_str_digits : nat := 4300.

Definition digit_count (s : list ascii) : nat :=
  length (List.filter (fun c => bool_decide (is_Some (digit_value c))) s).

(** The builtin [int] on a string, in base 10: surrounding whitespace, an
    optional sign, then digits, not more than the limit.  [None] stands for
    [ValueError]. *)
Definition py_int (s : string) : option Z :=
  match strip_numeral (String.list_ascii_of_string s) with
  | [] => None
  | c :: s' =>
      let body := if Ascii.eqb c "-" || Ascii.eqb c "+" then s' else c :: s' in
      if (int_max_str_digits <? digit_count body)%nat then None
      else if Ascii.eqb c "-" then Z.opp <$> int_digits 0 false s'
      else if Ascii.eqb c "+" then int_digits 0 false s'
      else int_digits 0 false (c :: s')
  end.


(** ** parse_command_line_args *)

Definition MIN_K : Z := 1.
Definition MIN_ITER : Z := 1.
Definition MAX_ITER : Z := 1000.
Definition DEFAULT_ITER : Z := 400.

(** [Some (k, max_iter, file_arg)], or [None] for [(None, None, None)], with
    the printed lines. *)
Definition parse_command_line_args (args : list string)
  : option (Z * Z * option string) * list string :=
  match args with
  | [] => (None, [generic_error])
  | arg0 :: rest =>
      match py_int arg0 with
      | None => (None, [generic_error])
      | Some k =>
          if k <=? MIN_K then (None, [invalid_clusters])
          else
            match rest with
            | [] => (Some (k, DEFAULT_ITER, None), [])
            | [arg1] => (Some (k, DEFAULT_ITER, Some arg1), [])
            | [arg1; arg2] =>
                match py_int arg1 with
                | None => (None, [generic_error])
                | Some max_iter =>
                    if (max_iter <=? MIN_ITER) || (MAX_ITER <=? max_iter)
                    then (None, [invalid_iterations])
                    else (Some (k, max_iter, Some arg2), [])
                end
            | _ => (None, [generic_error])
            end
      end
  end.

(** ** read_vectors and main *)

(** What the program reads: its arguments, the files that can be opened
    ([None] when [open] or [readlines] fails) and standard input, as lines. *)
Record world : Type := World {
  argv : list string;
  open_file : string → option (list string);
  stdin_lines : list string
}.

Section Main.
Context {F : Type} `{PyNum F}.

(** [list(map(float, line.split(',')))]; [None] for [ValueError]. *)
Definition parse_row (line : string) : option (list F) :=
  mapM pyfloat (py_split "," line).

Fixpoint read_rows (lines : list string) (vectors : list (list F)) : option (list (list F)) :=
  match lines with
  | [] => Some vectors
  | line :: lines' =>
      let line := py_strip line in
      match line with
      | EmptyString => read_rows lines' vectors
      | _ =>
          match parse_row line with
          | Some v => read_rows lines' (vectors ++ [v])
          | None => None
          end
      end
  end.

Definition read_vectors (w : world) (file_arg : option string)
  : option (list (list F)) * list string :=
  let source :=
    match file_arg with
    | None | Some EmptyString => Some (stdin_lines w)
    | Some name => open_file w name
    end in
  match source with
  | None => (None, [generic_error])
  | Some lines =>
      match read_rows lines [] with
      | None => (None, [generic_error])
      | Some [] => (None, [generic_error])
      | Some vectors => (Some vectors, [])
      end
  end.

(** The value of [main()], or the exception that leaves it, with everything
    printed. *)
Definition main (w : world) : res Z * list string :=
  match parse_command_line_args (argv w) with
  | (None, out) => (Ok 1, out)
  | (Some (k, max_iter, file_arg), out) =>
      match read_vectors w file_arg with
      | (None, out') => (Ok 1, out ++ out')
      | (Some vectors, out') =>
          match kmeans_clustering k max_iter vectors None with
          | (Raise e, out'') => (Raise e, out ++ out' ++ out'')
          | (Ok None, out'') => (Ok 1, out ++ out' ++ out'')
          | (Ok (Some _), out'') => (Ok 0, out ++ out' ++ out'')
          end
      end
  end.

(** The status the process ends with: [sys.exit(main())]; an uncaught
    exception ends the interpreter with status 1. *)
Definition exit_status (w : world) : Z :=
  match (main w).1 with
  | Ok code => code
  | Raise _ => 1
  end.

End Main.

(** ** The binary64 instance

    Python floats are IEEE 754 binary64 numbers, as the primitive floats
    are.  [x ** 2] is taken as the product [x * x] with the overflow test of
    CPython's [float_pow] (a finite base whose power is infinite raises
    [OverflowError]) and [x ** 0.5] as the square root (CPython takes both
    from the [pow] of the C library, whose result can differ from these in
    the last bit); adding to the integer
    [0] is adding to [0.0]; [sum] adds from left to right, starting from 0
    (CPython 3.12 and later also compensate the rounding errors of the
    additions, which changes nothing where the additions are exact, as in
    the runs below).  [float] is implemented here for [nan], [inf] and
    the plain decimal numerals (sign, digits, optional point and digits)
    that convert with one correctly rounded division; this instance answers
    [None] on every other string, also on those CPython accepts (exponents,
    underscores, longer numerals). *)
Module Binary64.

Definition square (x : float) : option float :=
  let y := (x * x)%float in
  if PrimFloat.is_infinity y && negb (PrimFloat.is_infinity x) then None
  else Some y.

Definition of_Z (z : Z) : float :=
  match z with
  | Z0 => 0%float
  | Zpos _ => PrimFloat.of_uint63 (Uint63.of_Z z)
  | Zneg p => (- PrimFloat.of_uint63 (Uint63.of_Z (Zpos p)))%float
  end.

Definition div_len (x : float) (n : nat) : float := (x / of_Z (Z.of_nat n))%float.

(** Digits before and after the point: the digits read so far as an integer
    and the number of digits after the point. *)
Fixpoint decimal (acc : Z) (frac : option nat) (seen : bool) (s : list ascii)
  : option (Z * nat) :=
  match s with
  | [] => if seen then Some (acc, default O frac) else None
  | c :: s' =>
      if Ascii.eqb c "." then
        match frac with
        | None => decimal acc (Some O) seen s'
        | Some _ => None
        end
      else
        match digit_value c with
        | Some d => decimal (10 * acc + d) (S <$> frac) true s'
        | None => None
        end
  end.

Definition float_of_decimal (neg : bool) (r : Z * nat) : option float :=
  let '(m, e) := r in
  if (m <? 2 ^ 53) && (e <=? 18)%nat then
    let x := (of_Z m / of_Z (10 ^ Z.of_nat e))%float in
    Some (if neg then (- x)%float else x)
  else None.

Definition lower (c : ascii) : ascii :=
  let n := nat_of_ascii c in
  if (65 <=? n)%nat && (n <=? 90)%nat then ascii_of_nat (n + 32) else c.

(** [nan], [inf] and [infinity], in either case. *)
Definition float_of_name (neg : bool) (s : list ascii) : option float :=
  let name := String.string_of_list_ascii (map lower s) in
  if String.eqb name "nan" then Some PrimFloat.nan
  else if String.eqb name "inf" || String.eqb name "infinity"
       then Some (if neg then PrimFloat.neg_infinity else PrimFloat.infinity)
       else None.

Definition float_of_body (neg : bool) (s : list ascii) : option float :=
  match float_of_name neg s with
  | Some x => Some x
  | None => decimal 0 None false s ≫= float_of_decimal neg
  end.

Definition float_of_string (s : string) : option float :=
  match strip_numeral (String.list_ascii_of_string s) with
  | [] => None
  | c :: s' =>
      if Ascii.eqb c "-" then float_of_body true s'
      else if Ascii.eqb c "+" then float_of_body false s'
      else float_of_body false (c :: s')
  end.

(** [n / 2 ^ s] rounded to the nearest integer, ties to even. *)
Definition round_shift (n : Z) (s : Z) : Z :=
  let d := 2 ^ s in
  let q := n / d in
  let r := n mod d in
  if 2 * r <? d then q
  else if d <? 2 * r then q + 1
  else if Z.even q then q else q + 1.

Definition pad_zeros (width : nat) (s : string) : string :=
  String.string_of_list_ascii (replicate (width - String.length s) "0"%char) +:+ s.

(** [f"{x:.4f}"]: the exact value of [x], rounded to four decimals. *)
Definition format4 (x : float) : string :=
  match Prim2SF x with
  | S754_nan => "nan"
  | S754_infinity neg => if neg then "-inf" else "inf"
  | S754_zero neg => if neg then "-0.0000" else "0.0000"
  | S754_finite neg m e =>
      let scaled := Zpos m * 10000 in
      let n := if 0 <=? e then scaled * 2 ^ e else round_shift scaled (- e) in
      let frac := pad_zeros 4 (pretty (n mod 10000)) in
      (if neg then "-" else "") +:+ pretty (n / 10000) +:+ "." +:+ frac
  end.

Global Instance binary64 : PyNum float := {|
  int0 := 0%float;
  fadd := PrimFloat.add;
  fsub := PrimFloat.sub;
  fsum := foldl PrimFloat.add 0%float;
  fsquare := square;
  froot := PrimFloat.sqrt;
  fdiv_len := div_len;
  flt := PrimFloat.ltb;
  fgt := fun x y => PrimFloat.ltb y x;
  feq := PrimFloat.eqb;
  lit_0_001 := 0x1.0624dd2f1a9fcp-10%float;
  pyfloat := float_of_string;
  fmt4 := format4
|}.

(** The rows of the tester's dummy input. *)
Definition dummy_input : list string := ["1,2,3"; "4,5,6"; "7,8,9"; "1,2,3"].

Definition dummy_vectors : list (list float) :=
  [[1; 2; 3]; [4; 5; 6]; [7; 8; 9]; [1; 2; 3]]%float.

(** Three centroids at distance 1 from the origin, after one at distance 5. *)
Definition tie_vector : list float := [0; 0]%float.
Definition tie_centroids : list (list float) :=
  [[3; 4]; [1; 0]; [0; 1]; [-1; 0]]%float.
Definition tie_distances : list float := [5; 1; 1; 1]%float.

(** A bucket of two points and an empty bucket, with the centroids before
    the update. *)
Definition two_buckets : list (list (list float)) := [[[0; 0]; [2; 4]]; []]%float.
Definition two_centroids : list (list float) := [[1; 1]; [9; 9]]%float.

(** A centroid that is not a number, before two centroids at distance 1
    from the origin. *)
Definition origin : list float := [0]%float.
Definition nan_centroids : list (list float) := [[PrimFloat.nan]; [1]; [-1]]%float.


(** Vectors of dimension 1, the first with the coordinate 1e200. *)
Definition huge_column : list (list float) :=
  [[0x1.4e718d7d7625ap+664]; [0]; [0]]%float.

(** A coordinate, 1e200, whose square is beyond the float range. *)
Definition huge_vectors : list (list float) :=
  [[0x1.4e718d7d7625ap+664; 0]; [0; 0]; [0; 0]]%float.

End Binary64.


(** * Notions used in the statements

    [arithmetic_mean] follows the words of the specification, to be compared
    with the mean the code computes; the other definitions are the
    predicates the properties are stated with. *)

Section Specification.
Context {F : Type} `{PyNum F}.

Definition coordinate (i : nat) (p : vector F) : F := default int0 (p !! i).

(** The coordinate-wise arithmetic mean of the members of a bucket of
    vectors of dimension [d]: in every dimension, the sum of the members'
    coordinates, then the division by their count. *)
Definition arithmetic_mean (d : nat) (bucket : list (vector F)) : vector F :=
  (fun i => fdiv_len (foldl (fun s p => fadd s (coordinate i p)) int0 bucket)
                     (length bucket)) <$> range d.

(** The comparisons behave as an order on the items of [ds]: [<] is
    transitive, and two items neither of which is below the other are equal.
    Distances that are numbers (no NaN) satisfy both. *)
Definition ordered (ds : list F) : Prop :=
  (∀ a b c, a ∈ ds → b ∈ ds → c ∈ ds →
            flt a b = true → flt b c = true → flt a c = true) ∧
  (∀ a b, a ∈ ds → b ∈ ds → flt a b = false → flt b a = false → feq a b = true).

Definition orderedb (ds : list F) : bool :=
  forallb (fun a => forallb (fun b =>
    (flt a b || flt b a || feq a b) &&
    forallb (fun c => implb (flt a b && flt b c) (flt a c)) ds) ds) ds.

(** A result that is a value satisfying [P], or the [OverflowError] of a
    square: the only failure of a run on a valid input. *)
Definition overflow_or {A : Type} (P : A → Prop) (r : res A) : Prop :=
  match r with
  | Ok a => P a
  | Raise e => e = OverflowError
  end.

(** All vectors have dimension [d]. *)
Definition dimension (d : nat) (vs : list (vector F)) : Prop :=
  Forall (fun v => length v = d) vs.

(** A valid input of the engine: vectors of one dimension [d], not none,
    [1 < k < number of vectors], and at least one iteration allowed (every
    [max_iter] the command line accepts is such). *)
Definition valid_input (d : nat) (k max_iter : Z) (vectors : list (vector F)) : Prop :=
  vectors ≠ [] ∧ dimension d vectors ∧
  1 < k ∧ k < Z.of_nat (length vectors) ∧ 1 <= max_iter.

(** The states the [while] loop goes through: from a state whose test
    holds, the body leads to the next one. *)
Inductive iterates (max_iter : Z) (vectors : list (vector F)) (eps : F)
    (st : loop_state F) : loop_state F → Prop :=
| iterates_refl : iterates max_iter vectors eps st st
| iterates_step st' st'' :
    iterates max_iter vectors eps st st' →
    loop_cond max_iter st' = true →
    loop_body vectors eps st' = Ok st'' →
    iterates max_iter vectors eps st st''.

(** The invariant of the loop: [k] centroids of dimension [d], and, once the
    body has run, [k] buckets of vectors of dimension [d]. *)
Definition engine_inv (k d : nat) (st : loop_state F) : Prop :=
  length (centroids st) = k ∧ dimension d (centroids st) ∧
  match clusters st with
  | None => curr_iter st = 0 ∧ converged st = false
  | Some cl => 1 <= curr_iter st ∧ length cl = k ∧ Forall (dimension d) cl
  end.

End Specification.

(** ** Notions used in the further properties *)

Section MoreNotions.
Context {F : Type} `{PyNum F}.

(** A result that is a value, or an exception that [bad] allows. *)
Definition raises_only {A : Type} (bad : exn → Prop) (r : res A) : Prop :=
  match r with
  | Ok _ => True
  | Raise e => bad e
  end.


(** [v] goes to the centroid of index [j]. *)
Definition assigned_to (cents : list (vector F)) (j : nat) (v : vector F) : bool :=
  match closest_centroid v cents with
  | Ok c => Nat.eqb c j
  | Raise _ => false
  end.

(** Vectors that [validate_vector_dimensions] accepts: at least one, all of
    one dimension. *)
Definition well_formed (vectors : list (vector F)) : Prop :=
  vectors ≠ [] ∧ ∃ d, dimension d vectors.

End MoreNotions.

(** The lines [read_vectors] converts: stripped, and not empty then. *)
Definition nonblank_lines (lines : list string) : list string :=
  List.filter (fun line => negb (String.eqb line "")) (map py_strip lines).

(** Where [read_vectors] reads from: standard input without a file name or
    with an empty one, the named file otherwise ([None] when it cannot be
    read). *)
Definition input_source (w : world) (file_arg : option string) : option (list string) :=
  match file_arg with
  | None | Some EmptyString => Some (stdin_lines w)
  | Some name => open_file w name
  end.

(** No comma in the string. *)
Definition comma_free (s : string) : Prop :=
  ¬ In ","%char (String.list_ascii_of_string s).

(** The three notices of the program. *)
Definition notice (out : list string) : Prop :=
  out = [generic_error] ∨ out = [invalid_clusters] ∨ out = [invalid_iterations].

(** Inputs of the further runs on binary64 floats. *)
Module Samples.

(** Two vectors of dimension 2 and a centroid of dimension 1. *)
Definition long_vectors : list (list float) := [[1; 2]; [3; 4]]%float.
Definition short_centroids : list (list float) := [[1]]%float.

(** Five points on a line and two centroids. *)
Definition line_points : list (list float) := [[0]; [10]; [1]; [9]; [2]]%float.
Definition line_centroids : list (list float) := [[0]; [10]]%float.

(** Lines with blanks around and between them. *)
Definition spaced_lines : list string := ["1,2"; ""; "  3,4  "; "   "].

Definition two_coordinates : list float := [1; 2.5]%float.

End Samples.

(** * Properties *)

(** ** Results and loops *)

Lemma bind_Ok {A B : Type} (m : res A) (f : A → res B) (b : B) :
  m ≫= f = Ok b ↔ ∃ a, m = Ok a ∧ f a = Ok b.
Proof.
  destruct m as [a|e]; simpl; split.
  - eauto.
  - intros (a' & [= ->] & Hf). exact Hf.
  - discriminate.
  - intros (a' & [=] & _).
Qed.

(** An invariant of a loop that can only fail in the way [bad] allows. *)
Lemma for_each_inv {S X : Type} (I : S → Prop) (bad : exn → Prop)
    (body : S → X → res S) (xs : list X) (s : S) :
  I s →
  (∀ s x, I s → x ∈ xs →
     match body s x with Ok s' => I s' | Raise e => bad e end) →
  match for_each body s xs with Ok s' => I s' | Raise e => bad e end.
Proof.
  revert s. induction xs as [|x xs IH]; intros s Hs Hbody; simpl; [done|].
  pose proof (Hbody s x Hs ltac:(left)) as Hx.
  destruct (body s x) as [s'|e]; [|done].
  apply IH; [done|]. intros s0 x0 Hs0 Hin. apply Hbody; [done|by right].
Qed.

Lemma comprehension_Ok {X Y : Type} (f : X → res Y) (xs : list X) (ys : list Y) :
  comprehension f xs = Ok ys ↔ Forall2 (fun x y => f x = Ok y) xs ys.
Proof.
  revert ys. induction xs as [|x xs IH]; intros ys; simpl.
  - split; [intros [= <-]; constructor|by inversion 1].
  - destruct (f x) as [y|e] eqn:Hfx.
    + destruct (comprehension f xs) as [ys'|e] eqn:Hc.
      * split.
        -- intros [= <-]. constructor; [done|by apply IH].
        -- inversion 1 as [|? y' ? ys'' Hy Hys]; subst.
           apply IH in Hys. congruence.
      * split; [done|]. inversion 1 as [|? y' ? ys'' Hy Hys]; subst.
        apply IH in Hys. congruence.
    + split; [done|]. inversion 1; congruence.
Qed.

Lemma comprehension_length {X Y : Type} (f : X → res Y) (xs : list X) (ys : list Y) :
  comprehension f xs = Ok ys → length ys = length xs.
Proof. rewrite comprehension_Ok. intros Hf. symmetry. by eapply Forall2_length. Qed.

(** A comprehension fails only where its element expression fails. *)
Lemma comprehension_inv {X Y : Type} (P : X → Y → Prop) (bad : exn → Prop)
    (f : X → res Y) (xs : list X) :
  (∀ x, x ∈ xs → match f x with Ok y => P x y | Raise e => bad e end) →
  match comprehension f xs with Ok ys => Forall2 P xs ys | Raise e => bad e end.
Proof.
  induction xs as [|x xs IH]; intros Hf; simpl; [constructor|].
  pose proof (Hf x ltac:(left)) as Hx.
  destruct (f x) as [y|e]; [|done].
  assert (Hrest : ∀ x0, x0 ∈ xs →
            match f x0 with Ok y => P x0 y | Raise e => bad e end).
  { intros x0 Hin. apply Hf. by right. }
  specialize (IH Hrest).
  destruct (comprehension f xs) as [ys|e]; [by constructor|done].
Qed.


Lemma index_Ok {A : Type} (l : list A) (i : nat) (x : A) :
  index l i = Ok x ↔ l !! i = Some x.
Proof. unfold index. destruct (l !! i); split; congruence. Qed.

Lemma index_lt {A : Type} (l : list A) (i : nat) :
  (i < length l)%nat → ∃ x, index l i = Ok x ∧ l !! i = Some x.
Proof.
  intros Hi. destruct (lookup_lt_is_Some_2 l i Hi) as [x Hx].
  exists x. by rewrite index_Ok.
Qed.

(** ** The nearest centroid *)

Section Nearest.
Context {F : Type} `{PyNum F}.

(** [min] returns an item of the list. *)
Lemma min_scan_item (l : list F) (best : nat * F) (i : nat) :
  let m := min_scan best i l in
  m = best ∨ ((i ≤ m.1)%nat ∧ l !! (m.1 - i)%nat = Some m.2).
Proof.
  revert best i. induction l as [|x l IH]; intros best i; simpl; [by left|].
  destruct (IH (if flt x best.2 then (i, x) else best) (S i)) as [->|[Hle Hl]].
  - destruct (flt x best.2); [right|by left]. simpl.
    split; [lia|]. by rewrite Nat.sub_diag.
  - right. split; [lia|].
    replace (_ - i)%nat with (S ((min_scan (if flt x best.2 then (i, x) else best) (S i) l).1 - S i))
      by lia.
    done.
Qed.

Lemma py_min_item (ds : list F) (m : nat * F) :
  py_min ds = Ok m → ds !! m.1 = Some m.2.
Proof.
  destruct ds as [|x l]; [done|]. intros [= <-].
  destruct (min_scan_item l (O, x) 1) as [->|[Hle Hl]]; [done|].
  destruct (min_scan (O, x) 1 l) as [p y]; simpl in *.
  destruct p as [|p]; [lia|]. simpl.
  by replace (S p - 1)%nat with p in Hl by lia.
Qed.

(** [index] finds the first position whose item is the sought object or
    equals it. *)
Lemma index_from_first (ds : list F) (i : nat) (m : nat * F) (c : nat) :
  index_from i m ds = Ok c →
  (i ≤ c)%nat ∧
  (∃ dc, ds !! (c - i)%nat = Some dc ∧ (c = m.1 ∨ feq dc m.2 = true)) ∧
  (∀ j dj, ds !! j = Some dj → (i + j)%nat = m.1 ∨ feq dj m.2 = true → (c ≤ i + j)%nat).
Proof.
  revert i. induction ds as [|x l IH]; intros i; simpl; [done|].
  destruct (Nat.eqb i m.1 || feq x m.2) eqn:Hhit.
  - intros [= <-]. split; [lia|]. split; [|intros; lia].
    exists x. rewrite Nat.sub_diag. split; [done|].
    apply orb_true_iff in Hhit as [Hi%Nat.eqb_eq|Hx]; [by left|by right].
  - intros Hc. destruct (IH _ Hc) as (Hle & (dc & Hdc & Hor) & Hfirst).
    apply orb_false_iff in Hhit as [Hi%Nat.eqb_neq Hx].
    split; [lia|]. split.
    + exists dc. split; [|done].
      replace (c - i)%nat with (S (c - S i)) by lia. done.
    + intros [|j] dj Hj Hor'; simpl in Hj.
      * injection Hj as ->. rewrite Nat.add_0_r in Hor'.
        destruct Hor'; congruence.
      * specialize (Hfirst j dj Hj). rewrite Nat.add_succ_r.
        apply Hfirst. by rewrite Nat.add_succ_r in Hor'.
Qed.

(** The object [min] returned is in the list, so [index] finds it. *)
Lemma index_from_total (ds : list F) (i : nat) (m : nat * F) :
  (i ≤ m.1)%nat → (m.1 < i + length ds)%nat →
  ∃ c, index_from i m ds = Ok c ∧ (c < i + length ds)%nat.
Proof.
  revert i. induction ds as [|x l IH]; intros i Hle Hlt; simpl in *; [lia|].
  destruct (Nat.eqb i m.1 || feq x m.2) eqn:Hhit.
  - exists i. split; [done|lia].
  - apply orb_false_iff in Hhit as [Hi%Nat.eqb_neq Hx].
    destruct (IH (S i)) as (c & Hc & Hlt'); [lia|lia|].
    exists c. split; [done|lia].
Qed.

(** After the scan, no item from position [i] on lies strictly below the
    result, when [<] is transitive on the items scanned. *)
Lemma min_scan_lower (l : list F) (best : nat * F) (i : nat) (d : F) :
  (∀ b c, (b = best.2 ∨ b ∈ l) → (c = best.2 ∨ c ∈ l) →
          flt d b = true → flt b c = true → flt d c = true) →
  (∀ b, (b = best.2 ∨ b ∈ l) → flt b d = false) →
  flt d best.2 = false ∨ d ∈ l →
  flt d (min_scan best i l).2 = false.
Proof.
  revert best i. induction l as [|x l IH]; intros best i Htrans Hmin Hd; simpl.
  - destruct Hd as [Hd|Hd]; [done|by apply elem_of_nil in Hd].
  - apply IH.
    + intros b c Hb Hc. apply Htrans.
      * destruct Hb as [->|Hb]; [|by right; right].
        destruct (flt x best.2); simpl; [right; left|by left].
      * destruct Hc as [->|Hc]; [|by right; right].
        destruct (flt x best.2); simpl; [right; left|by left].
    + intros b Hb. apply Hmin.
      destruct Hb as [->|Hb]; [|by right; right].
      destruct (flt x best.2); simpl; [right; left|by left].
    + destruct Hd as [Hd|Hd].
      * left. destruct (flt x best.2) eqn:Hx; simpl; [|done].
        destruct (flt d x) eqn:Hdx; [|done].
        rewrite <- Hd. symmetry.
        apply (Htrans x best.2); [right; left|by left|done|done].
      * apply elem_of_cons in Hd as [->|Hd]; [|by right].
        left. destruct (flt x best.2) eqn:Hx; simpl; [|done].
        apply Hmin. right; left.
Qed.

Lemma orderedb_ordered (ds : list F) : orderedb ds = true → ordered ds.
Proof.
  unfold orderedb. rewrite forallb_forall. intros Hall. split.
  - intros a b c Ha%list_elem_of_In Hb%list_elem_of_In Hc%list_elem_of_In Hab Hbc.
    specialize (Hall a Ha). rewrite forallb_forall in Hall.
    specialize (Hall b Hb). apply andb_true_iff in Hall as [_ Hall].
    rewrite forallb_forall in Hall. specialize (Hall c Hc).
    rewrite Hab, Hbc in Hall. simpl in Hall. by destruct (flt a c).
  - intros a b Ha%list_elem_of_In Hb%list_elem_of_In Hab Hba.
    specialize (Hall a Ha). rewrite forallb_forall in Hall.
    specialize (Hall b Hb). apply andb_true_iff in Hall as [Hall _].
    by rewrite Hab, Hba in Hall.
Qed.

Lemma py_min_lower (ds : list F) (m : nat * F) (d : F) :
  ordered ds → py_min ds = Ok m → d ∈ ds →
  (∀ dn, dn ∈ ds → flt dn d = false) →
  feq d m.2 = true.
Proof.
  intros [Htrans Htotal] Hm Hd Hmin.
  pose proof (py_min_item _ _ Hm) as Hitem%list_elem_of_lookup_2.
  destruct ds as [|x l]; [done|]. injection Hm as <-.
  apply Htotal; [done|done| |by apply Hmin].
  apply min_scan_lower; simpl.
  - intros b c Hb Hc. apply Htrans; [done| |];
      apply elem_of_cons; tauto.
  - intros b Hb. apply Hmin, elem_of_cons. tauto.
  - apply elem_of_cons in Hd as [->|Hd]; [|by right].
    left. apply Hmin. by left.
Qed.

Lemma append_to_replicate (k c : nat) (v : vector F) :
  (c < k)%nat →
  ∃ clusters, append_to (replicate k []) c v = Ok clusters ∧
    length clusters = k ∧ clusters !! c = Some [v] ∧
    ∀ j, (j < k)%nat → j ≠ c → clusters !! j = Some [].
Proof.
  intros Hc. unfold append_to.
  rewrite lookup_replicate_2 by done.
  eexists. split; [done|]. split; [by rewrite length_alter, length_replicate|].
  split.
  - rewrite list_lookup_alter_eq, lookup_replicate_2; done.
  - intros j Hj Hne. rewrite list_lookup_alter_ne by done.
    by apply lookup_replicate_2.
Qed.

(** C3, as the code has it.  The vector goes to the first centroid whose
    distance equals the minimal distance [min(distances)]: no centroid of a
    smaller index is at that distance.  When the distances compare as
    numbers do (none of them is NaN), every centroid at a distance that no
    other distance is below has an index at least that of the chosen one, so
    of centroids tied for the minimum the one of the smallest index wins. *)
Theorem assign_tie_break (v : vector F) (cs : list (vector F)) (ds : list F) :
  distances_of v cs = Ok ds → ds ≠ [] →
  ∃ (c : nat) (m : nat * F) (dc : F) (clusters : list (list (vector F))),
    closest_centroid v cs = Ok c ∧
    py_min ds = Ok m ∧ ds !! m.1 = Some m.2 ∧
    ds !! c = Some dc ∧ (c = m.1 ∨ feq dc m.2 = true) ∧
    (∀ j dj, ds !! j = Some dj → feq dj m.2 = true → (c ≤ j)%nat) ∧
    (ordered ds →
     ∀ i di, ds !! i = Some di → (∀ dn, dn ∈ ds → flt dn di = false) →
             (c ≤ i)%nat ∧ feq di m.2 = true) ∧
    assign_clusters [v] cs = Ok clusters ∧
    length clusters = length cs ∧
    clusters !! c = Some [v] ∧
    (∀ j, (j < length cs)%nat → j ≠ c → clusters !! j = Some []).
Proof.
  intros Hds Hne.
  destruct (py_min ds) as [m|e] eqn:Hm; [|by destruct ds].
  pose proof (py_min_item _ _ Hm) as Hitem.
  pose proof (lookup_lt_Some _ _ _ Hitem) as Hlt.
  destruct (index_from_total ds O m) as (c & Hc & Hclt); [lia|lia|].
  destruct (index_from_first _ _ _ _ Hc) as (_ & (dc & Hdc & Hor) & Hfirst).
  rewrite Nat.sub_0_r in Hdc. simpl in Hclt.
  assert (Hclosest : closest_centroid v cs = Ok c).
  { unfold closest_centroid. rewrite Hds. simpl. rewrite Hm. simpl. exact Hc. }
  pose proof (comprehension_length _ _ _ Hds) as Hlen.
  destruct (append_to_replicate (length cs) c v) as (clusters & Happ & Hl & Hcv & Hothers);
    [lia|].
  exists c, m, dc, clusters. repeat split; try done.
  - intros j dj Hj Heq. apply (Hfirst j dj Hj). by right.
  - apply (Hfirst i di); [done|]. right.
    apply (py_min_lower ds); [done|done|by eapply list_elem_of_lookup_2|done].
  - apply (py_min_lower ds); [done|done|by eapply list_elem_of_lookup_2|done].
  - unfold assign_clusters. simpl. rewrite Hclosest. simpl. by rewrite Happ.
Qed.

End Nearest.

(** ** The mean of a bucket *)

Section Mean.
Context {F : Type} `{PyNum F}.

(** The loop [new_centroid[i] += point[i]] adds [point] to the accumulator
    coordinate by coordinate. *)
Lemma add_point_from (point : list F) (n s : nat) (acc : list F) :
  (s + n)%nat = length acc → (s + n ≤ length point)%nat →
  for_each (fun acc i => a ← index acc i; p ← index point i; Ok (<[i := fadd a p]> acc))
           acc (seq s n)
  = Ok (take s acc ++ zip_with fadd (drop s acc) (drop s point)).
Proof.
  revert s acc. induction n as [|n IH]; intros s acc Hacc Hpoint; simpl.
  - rewrite drop_ge, take_ge by lia. by rewrite app_nil_r.
  - destruct (lookup_lt_is_Some_2 acc s) as [a Ha]; [lia|].
    destruct (lookup_lt_is_Some_2 point s) as [p Hp]; [lia|].
    unfold index. rewrite Ha. simpl. rewrite Hp. simpl.
    rewrite IH by (rewrite ?length_insert; lia).
    f_equal.
    rewrite (take_S_r _ _ (fadd a p)) by (apply list_lookup_insert_eq; lia).
    rewrite take_insert_ge by lia.
    rewrite drop_insert_lt by lia.
    rewrite (drop_S acc a s Ha), (drop_S point p s Hp). simpl.
    by rewrite <- app_assoc.
Qed.

Lemma add_point_short (point : list F) (n s : nat) (acc : list F) :
  (s + n)%nat = length acc → (s ≤ length point)%nat → (length point < s + n)%nat →
  for_each (fun acc i => a ← index acc i; p ← index point i; Ok (<[i := fadd a p]> acc))
           acc (seq s n)
  = Raise IndexError.
Proof.
  revert s acc. induction n as [|n IH]; intros s acc Hacc Hs Hpoint; simpl; [lia|].
  destruct (lookup_lt_is_Some_2 acc s) as [a Ha]; [lia|].
  unfold index. rewrite Ha. simpl.
  destruct (point !! s) as [p|] eqn:Hp; simpl.
  - apply lookup_lt_Some in Hp.
    apply IH; rewrite ?length_insert; lia.
  - done.
Qed.

Lemma add_point_zip (dim : nat) (acc point : vector F) :
  length acc = dim →
  add_point dim acc point =
    if decide (dim ≤ length point)%nat then Ok (zip_with fadd acc point)
    else Raise IndexError.
Proof.
  intros Hacc. unfold add_point, range. case_decide.
  - rewrite add_point_from by (simpl; lia). by rewrite take_0, !drop_0.
  - apply add_point_short; simpl; lia.
Qed.

(** The loop [new_centroid[i] /= count] divides every coordinate. *)
Lemma divide_all_from (count n s : nat) (acc : list F) :
  (s + n)%nat = length acc → (0 < count)%nat →
  for_each (fun acc i => a ← index acc i; q ← truediv a count; Ok (<[i := q]> acc))
           acc (seq s n)
  = Ok (take s acc ++ map (fun a => fdiv_len a count) (drop s acc)).
Proof.
  intros Hacc Hcount. revert s acc Hacc.
  induction n as [|n IH]; intros s acc Hacc; simpl.
  - rewrite drop_ge, take_ge by lia. by rewrite app_nil_r.
  - destruct (lookup_lt_is_Some_2 acc s) as [a Ha]; [lia|].
    unfold index. rewrite Ha. simpl.
    unfold truediv at 1. destruct count as [|count]; [lia|]. simpl.
    rewrite IH by (rewrite ?length_insert; lia).
    f_equal.
    rewrite (take_S_r _ _ (fdiv_len a (S count))) by (apply list_lookup_insert_eq; lia).
    rewrite take_insert_ge by lia.
    rewrite drop_insert_lt by lia.
    rewrite (drop_S acc a s Ha). simpl.
    by rewrite <- app_assoc.
Qed.

Lemma divide_all_map (dim count : nat) (acc : vector F) :
  length acc = dim → (0 < count)%nat →
  divide_all dim acc count = Ok (map (fun a => fdiv_len a count) acc).
Proof.
  intros Hacc Hcount. unfold divide_all, range.
  rewrite divide_all_from by (simpl; lia). by rewrite take_0, drop_0.
Qed.

(** Adding the points of a bucket one after the other. *)
Lemma sum_points (dim : nat) (bucket : list (vector F)) (acc : vector F) :
  length acc = dim →
  Forall (fun p => (dim ≤ length p)%nat) bucket →
  for_each (add_point dim) acc bucket = Ok (foldl (zip_with fadd) acc bucket)
  ∧ length (foldl (zip_with fadd) acc bucket) = dim.
Proof.
  intros Hacc Hall. revert acc Hacc.
  induction Hall as [|p bucket Hp Hall IH]; intros acc Hacc; simpl; [done|].
  rewrite add_point_zip by done. rewrite decide_True by done.
  apply IH. rewrite length_zip_with. lia.
Qed.

Lemma sum_points_short (dim : nat) (bucket : list (vector F)) (acc : vector F) :
  length acc = dim →
  ¬ Forall (fun p => (dim ≤ length p)%nat) bucket →
  for_each (add_point dim) acc bucket = Raise IndexError.
Proof.
  intros Hacc Hsome. revert acc Hacc.
  induction bucket as [|p bucket IH]; intros acc Hacc; simpl.
  - destruct Hsome. constructor.
  - rewrite add_point_zip by done. case_decide; [|done].
    apply IH.
    + intros Hall. apply Hsome. by constructor.
    + rewrite length_zip_with. lia.
Qed.

Lemma coordinate_lookup (p : list F) (i : nat) (x : F) :
  p !! i = Some x → coordinate i p = x.
Proof. unfold coordinate. by intros ->. Qed.

(** The vector of sums, column by column. *)
Lemma foldl_zip_columns (dim : nat) (bucket : list (list F)) (acc : list F) :
  length acc = dim →
  Forall (fun p => (dim ≤ length p)%nat) bucket →
  foldl (zip_with fadd) acc bucket =
    (fun i => foldl (fun s p => fadd s (coordinate i p)) (coordinate i acc) bucket)
      <$> seq 0 dim.
Proof.
  intros Hacc Hall. revert acc Hacc.
  induction Hall as [|p bucket Hp Hall IH]; intros acc Hacc; simpl.
  - apply list_eq. intros i. rewrite list_lookup_fmap.
    destruct (decide (i < dim)%nat) as [Hi|Hi].
    + rewrite lookup_seq_lt by done. simpl.
      destruct (lookup_lt_is_Some_2 acc i) as [a Ha]; [lia|].
      rewrite Ha. f_equal. symmetry. by apply coordinate_lookup.
    + rewrite lookup_seq_ge by lia. simpl.
      apply lookup_ge_None. lia.
  - rewrite IH by (rewrite length_zip_with; lia).
    apply list_fmap_ext. intros j i' Hi%lookup_seq. destruct Hi as [Hi' Hi].
    simpl in Hi'. subst i'. rename j into i. simpl. f_equal.
    destruct (lookup_lt_is_Some_2 acc i) as [a Ha]; [lia|].
    destruct (lookup_lt_is_Some_2 p i) as [x Hx]; [lia|].
    rewrite (coordinate_lookup acc i a Ha), (coordinate_lookup p i x Hx).
    apply coordinate_lookup. rewrite lookup_zip_with, Ha. simpl. by rewrite Hx.
Qed.

Lemma coordinate_zeros (dim i : nat) : coordinate i (replicate dim int0) = int0.
Proof.
  unfold coordinate. destruct (decide (i < dim)%nat).
  - by rewrite lookup_replicate_2.
  - replace (replicate dim int0 !! i) with (@None F); [done|].
    symmetry. apply lookup_replicate_None. lia.
Qed.

(** The mean the code computes is the arithmetic mean of the bucket, when
    every member has the coordinates of the first one; otherwise reading a
    missing coordinate raises [IndexError]. *)
Lemma bucket_mean_cases (first : list F) (rest : list (list F)) :
  let bucket := first :: rest in
  bucket_mean bucket =
    if decide (Forall (fun p => (length first ≤ length p)%nat) bucket)
    then Ok (arithmetic_mean (length first) bucket)
    else Raise IndexError.
Proof.
  intros bucket. unfold bucket_mean, bucket. fold bucket.
  case_decide as Hall.
  - destruct (sum_points (length first) bucket (replicate (length first) int0))
      as [-> Hlen]; [by rewrite length_replicate|done|].
    unfold mbind, res_bind; cbv beta iota.
    rewrite (divide_all_map (length first)); [|done|simpl; lia].
    f_equal. rewrite (foldl_zip_columns (length first)); [|by rewrite length_replicate|done].
    unfold arithmetic_mean, range.
    change (map ?f ?l) with (f <$> l). rewrite <- list_fmap_compose.
    apply list_fmap_ext. intros j i _. simpl. by rewrite coordinate_zeros.
  - rewrite (sum_points_short (length first));
      [done|by rewrite length_replicate|done].
Qed.

Lemma arithmetic_mean_length (d : nat) (bucket : list (list F)) :
  length (arithmetic_mean d bucket) = d.
Proof. unfold arithmetic_mean, range. by rewrite length_fmap, length_seq. Qed.

End Mean.

(** ** update_centroids *)

Section Update.
Context {F : Type} `{PyNum F}.

Lemma update_step_outcome (clusters : list (list (vector F))) (cents : list (vector F))
    (eps : F) (st : list (vector F) * bool) (j : nat) :
  update_step clusters cents eps st j =
    centroid_outcome clusters cents eps j ≫= fun r : list F * bool =>
    Ok (st.1 ++ [r.1], if r.2 then false else st.2).
Proof.
  unfold update_step, centroid_outcome.
  destruct (index clusters j) as [[|first rest]|e]; cbn [mbind res_bind]; [| |done].
  - by destruct (index cents j).
  - destruct (bucket_mean (first :: rest)); cbn [mbind res_bind]; [|done].
    destruct (index cents j); cbn [mbind res_bind]; [|done].
    by destruct (euclidean_distance _ _).
Qed.

Lemma update_loop_outcomes (clusters : list (list (vector F))) (cents : list (vector F))
    (eps : F) (js : list nat) (st : list (vector F) * bool) :
  for_each (update_step clusters cents eps) st js =
    comprehension (centroid_outcome clusters cents eps) js
      ≫= fun rs : list (list F * bool) =>
    Ok (st.1 ++ rs.*1, st.2 && forallb (fun r : list F * bool => negb r.2) rs).
Proof.
  revert st. induction js as [|j js IH]; intros [new flag]; simpl.
  - by rewrite app_nil_r, andb_true_r.
  - rewrite update_step_outcome.
    destruct (centroid_outcome clusters cents eps j) as [[nc moved]|e]; simpl; [|done].
    rewrite IH.
    destruct (comprehension _ js) as [rs|e]; simpl; [|done].
    rewrite <- app_assoc. simpl. by destruct moved, flag.
Qed.

Lemma update_centroids_outcomes (clusters : list (list (vector F)))
    (cents : list (vector F)) (eps : F) :
  update_centroids clusters cents eps =
    comprehension (centroid_outcome clusters cents eps) (range (length cents))
      ≫= fun rs : list (list F * bool) =>
    Ok (rs.*1, forallb (fun r : list F * bool => negb r.2) rs).
Proof. unfold update_centroids. by rewrite update_loop_outcomes. Qed.

(** The outcomes of a successful [update_centroids], index by index. *)
Lemma update_centroids_Ok (clusters : list (list (vector F))) (cents : list (vector F))
    (eps : F) (new : list (vector F)) (flag : bool) :
  update_centroids clusters cents eps = Ok (new, flag) →
  ∃ rs, new = rs.*1 ∧ flag = forallb (fun r : list F * bool => negb r.2) rs ∧
        length rs = length cents ∧
        ∀ j, (j < length cents)%nat →
             ∃ r, rs !! j = Some r ∧ centroid_outcome clusters cents eps j = Ok r.
Proof.
  rewrite update_centroids_outcomes. intros (rs & Hrs & [= <- <-])%bind_Ok.
  exists rs. split; [done|]. split; [done|].
  pose proof (comprehension_length _ _ _ Hrs) as Hlen.
  unfold range in Hlen. rewrite length_seq in Hlen. split; [done|].
  intros j Hj. apply comprehension_Ok in Hrs.
  destruct (lookup_lt_is_Some_2 rs j) as [r Hr]; [lia|].
  exists r. split; [done|].
  eapply (Forall2_lookup_lr _ _ _ j j) in Hrs; [done| |done].
  unfold range. by rewrite lookup_seq_lt.
Qed.

Lemma centroid_outcome_empty (clusters : list (list (vector F))) (cents : list (vector F))
    (eps : F) (j : nat) (old : vector F) :
  clusters !! j = Some [] → cents !! j = Some old →
  centroid_outcome clusters cents eps j = Ok (old, false).
Proof.
  intros Hb Ho. unfold centroid_outcome, index. rewrite Hb. simpl. by rewrite Ho.
Qed.

Lemma centroid_outcome_members (clusters : list (list (vector F)))
    (cents : list (vector F)) (eps : F) (j : nat) (first : vector F)
    (rest : list (vector F)) (r : vector F * bool) :
  clusters !! j = Some (first :: rest) →
  centroid_outcome clusters cents eps j = Ok r →
  r.1 = arithmetic_mean (length first) (first :: rest) ∧
  ∃ old d, cents !! j = Some old ∧ euclidean_distance old r.1 = Ok d ∧ r.2 = fgt d eps.
Proof.
  intros Hb. unfold centroid_outcome, index. rewrite Hb. cbn [mbind res_bind].
  rewrite bucket_mean_cases. case_decide; [|done]. cbn [mbind res_bind].
  destruct (cents !! j) as [old|]; cbn [mbind res_bind]; [|done].
  destruct (euclidean_distance old _) as [d|e] eqn:Hd; cbn [mbind res_bind]; [|done].
  intros [= <-]. cbn [fst snd]. split; [done|]. by exists old, d.
Qed.

(** C4.  After [update_centroids], the centroid at an index whose bucket has
    members is the coordinate-wise arithmetic mean of the members (the sums,
    then the division by the count), and the centroid at an index whose
    bucket is empty is the previous centroid.  The pass for an empty bucket
    cannot fail: it appends the previous centroid and leaves the flag as it
    is. *)
Theorem update_centroids_mean (clusters : list (list (vector F)))
    (cents new : list (vector F)) (eps : F) (flag : bool) :
  update_centroids clusters cents eps = Ok (new, flag) →
  length new = length cents ∧
  (∀ j old, cents !! j = Some old →
     ∃ bucket, clusters !! j = Some bucket ∧
       match bucket with
       | [] => new !! j = Some old
       | first :: _ => new !! j = Some (arithmetic_mean (length first) bucket)
       end) ∧
  (∀ j old st, clusters !! j = Some [] → cents !! j = Some old →
     update_step clusters cents eps st j = Ok (st.1 ++ [old], st.2)).
Proof.
  intros (rs & -> & -> & Hlen & Hrs)%update_centroids_Ok.
  split; [by rewrite length_fmap|]. split.
  - intros j old Hold.
    destruct (Hrs j) as (r & Hr & Hout); [by eapply lookup_lt_Some|].
    assert (Hnew : rs.*1 !! j = Some r.1) by (by rewrite list_lookup_fmap, Hr).
    destruct (clusters !! j) as [bucket|] eqn:Hb.
    + exists bucket. split; [done|]. destruct bucket as [|first rest].
      * rewrite (centroid_outcome_empty _ _ _ _ old Hb Hold) in Hout.
        by injection Hout as <-.
      * destruct (centroid_outcome_members _ _ _ _ _ _ _ Hb Hout) as [<- _]. done.
    + unfold centroid_outcome, index in Hout. by rewrite Hb in Hout.
  - intros j old st Hb Hold. rewrite update_step_outcome.
    by rewrite (centroid_outcome_empty _ _ _ _ old Hb Hold).
Qed.


End Update.

(** ** Totality on vectors of one dimension *)

Section Totality.
Context {F : Type} `{PyNum F}.

Lemma overflow_or_bind {A B : Type} (P : A → Prop) (Q : B → Prop)
    (m : res A) (f : A → res B) :
  overflow_or P m → (∀ a, P a → overflow_or Q (f a)) → overflow_or Q (m ≫= f).
Proof. destruct m as [a|e]; simpl; [|done]. intros Ha Hf. by apply Hf. Qed.

Lemma euclidean_distance_total (point centroid : list F) :
  (length point ≤ length centroid)%nat →
  overflow_or (fun _ => True) (euclidean_distance point centroid).
Proof.
  intros Hlen. unfold euclidean_distance.
  apply (overflow_or_bind (fun _ => True)); [|done].
  unfold py_sum.
  apply (overflow_or_bind (fun _ => True)); [|done].
  pose proof (comprehension_inv (fun _ _ => True) (fun e => e = OverflowError)
                (squared_diff point centroid) (range (length point))) as Hc.
  destruct (comprehension _ _) as [items|e]; [done|]. apply Hc.
  intros i [_ Hi]%elem_of_seq. simpl in Hi.
  unfold squared_diff.
  destruct (index_lt point i) as (p & -> & _); [lia|].
  destruct (index_lt centroid i) as (c & -> & _); [lia|].
  cbn [mbind res_bind]. unfold pow2. by destruct (fsquare _).
Qed.

Lemma distances_of_total (d : nat) (v : list F) (cents : list (list F)) :
  length v = d → dimension d cents →
  overflow_or (fun ds => length ds = length cents) (distances_of v cents).
Proof.
  intros Hv Hcents. unfold distances_of.
  pose proof (comprehension_inv (fun _ _ => True) (fun e => e = OverflowError)
                (euclidean_distance v) cents) as Hc.
  destruct (comprehension (euclidean_distance v) cents) as [ds|e] eqn:Hds; simpl.
  - by apply comprehension_length in Hds.
  - apply Hc. intros c Hin.
    pose proof (euclidean_distance_total v c) as Hd.
    unfold dimension in Hcents. rewrite Forall_forall in Hcents.
    specialize (Hcents c Hin).
    destruct (euclidean_distance v c); [done|]. apply Hd. lia.
Qed.

Lemma closest_centroid_total (d : nat) (v : list F) (cents : list (list F)) :
  length v = d → dimension d cents → cents ≠ [] →
  overflow_or (fun c => (c < length cents)%nat) (closest_centroid v cents).
Proof.
  intros Hv Hcents Hne. unfold closest_centroid.
  eapply overflow_or_bind; [by eapply distances_of_total|].
  intros ds Hlen. cbv beta.
  destruct ds as [|x l] eqn:Hds; [by destruct cents|]. rewrite <- Hds in *.
  destruct (py_min ds) as [m|e] eqn:Hm; [|by subst ds].
  cbn [mbind res_bind].
  pose proof (py_min_item _ _ Hm) as Hitem%lookup_lt_Some.
  destruct (index_from_total ds O m) as (c & Hc & Hclt); [lia|lia|].
  unfold py_list_index. rewrite Hc. simpl in *. lia.
Qed.

(** The buckets [assign_clusters] returns: as many as centroids, filled
    with input vectors. *)
Lemma assign_clusters_total (d : nat) (vectors : list (list F)) (cents : list (list F)) :
  dimension d vectors → dimension d cents → cents ≠ [] →
  overflow_or (fun clusters => length clusters = length cents ∧
                               Forall (dimension d) clusters)
              (assign_clusters vectors cents).
Proof.
  intros Hvs Hcents Hne. unfold assign_clusters.
  apply (for_each_inv
           (fun clusters : list (list (list F)) =>
              length clusters = length cents ∧ Forall (dimension d) clusters)
           (fun e => e = OverflowError)).
  - split; [by rewrite length_replicate|].
    apply Forall_replicate. constructor.
  - intros clusters v [Hlen Hdims] Hv.
    unfold dimension in Hvs. rewrite Forall_forall in Hvs. specialize (Hvs v Hv).
    pose proof (closest_centroid_total d v cents Hvs Hcents Hne) as Hc.
    destruct (closest_centroid v cents) as [c|e]; [|done].
    cbn [mbind res_bind]. simpl in Hc. unfold append_to.
    destruct (lookup_lt_is_Some_2 clusters c) as [b Hb]; [lia|].
    rewrite Hb. split; [by rewrite length_alter|].
    apply Forall_alter; [done|]. intros b' Hb' Hdb'.
    apply Forall_app_2; [done|by repeat constructor].
Qed.

End Totality.

(** ** The loop of kmeans_clustering *)

Section Loop.
Context {F : Type} `{PyNum F}.

(** The [while] loop: test, body, and again. *)
Lemma kmeans_loop_eq (max_iter : Z) (vectors : list (vector F)) (eps : F)
    (st : loop_state F) :
  kmeans_loop max_iter vectors eps st =
    if loop_cond max_iter st then
      match loop_body vectors eps st with
      | Ok st' => kmeans_loop max_iter vectors eps st'
      | Raise e => Raise e
      end
    else Ok st.
Proof.
  funelim (kmeans_loop max_iter vectors eps st); unfold loop_cond;
    repeat match goal with
           | Hc : converged _ = _ |- _ => rewrite Hc; clear Hc
           | Hb : loop_body _ _ _ = _ |- _ => rewrite Hb
           end; simpl; try done.
  - by rewrite (proj2 (Z.ltb_ge _ _)) by lia.
  - by rewrite (proj2 (Z.ltb_lt _ _)) by lia.
  - by rewrite (proj2 (Z.ltb_lt _ _)) by lia.
Qed.

Lemma loop_body_Ok (vectors : list (vector F)) (eps : F) (st st' : loop_state F) :
  loop_body vectors eps st = Ok st' ↔
  ∃ cl new flag,
    assign_clusters vectors (centroids st) = Ok cl ∧
    update_centroids cl (centroids st) eps = Ok (new, flag) ∧
    st' = LoopState (curr_iter st + 1) flag (Some cl) new (S (checks st)).
Proof.
  unfold loop_body. rewrite bind_Ok. split.
  - intros (cl & Hcl & ([new flag] & Hup & [= <-])%bind_Ok). by exists cl, new, flag.
  - intros (cl & new & flag & Hcl & Hup & ->). exists cl. split; [done|].
    by rewrite Hup.
Qed.

(** An invariant of the loop holds when the loop ends, and then the test
    is false; the loop can only fail as its body can. *)
Lemma kmeans_loop_inv (I : loop_state F → Prop) (bad : exn → Prop) (max_iter : Z)
    (vectors : list (vector F)) (eps : F) (st : loop_state F) :
  (∀ st, I st → loop_cond max_iter st = true →
         match loop_body vectors eps st with Ok st' => I st' | Raise e => bad e end) →
  I st →
  match kmeans_loop max_iter vectors eps st with
  | Ok st' => I st' ∧ loop_cond max_iter st' = false
  | Raise e => bad e
  end.
Proof.
  intros Hstep. remember (Z.to_nat (max_iter - curr_iter st)) as n eqn:Hn.
  revert st Hn. induction n as [n IH] using lt_wf_ind. intros st Hn Hst.
  rewrite kmeans_loop_eq. destruct (loop_cond max_iter st) eqn:Hcond; [|done].
  specialize (Hstep st Hst Hcond).
  destruct (loop_body vectors eps st) as [st'|e] eqn:Hbody; [|done].
  apply loop_body_Ok in Hbody as (cl & new & flag & _ & _ & ->).
  unfold loop_cond in Hcond.
  apply andb_true_iff in Hcond as [_ Hlt%Z.ltb_lt].
  eapply IH; [|done|done]. simpl. lia.
Qed.


Lemma iterates_inv (I : loop_state F → Prop) (max_iter : Z) (vectors : list (vector F))
    (eps : F) (st st' : loop_state F) :
  (∀ st st', I st → loop_cond max_iter st = true →
             loop_body vectors eps st = Ok st' → I st') →
  I st → iterates max_iter vectors eps st st' → I st'.
Proof.
  intros Hstep Hst. induction 1 as [|st' st'' Hit IH Hc Hb]; [done|].
  by eapply Hstep.
Qed.


End Loop.

(** ** Joining and splitting *)

Lemma list_ascii_of_string_app (s1 s2 : string) :
  String.list_ascii_of_string (s1 +:+ s2) =
  String.list_ascii_of_string s1 ++ String.list_ascii_of_string s2.
Proof. induction s1 as [|c s1 IH]; simpl; [done|]. by rewrite IH. Qed.

Lemma split_on_piece (sep : ascii) (s rest piece : list ascii) :
  ¬ In sep s →
  split_on sep piece (s ++ rest) = split_on sep (rev s ++ piece) rest.
Proof.
  revert piece. induction s as [|c s IH]; intros piece Hs; simpl; [done|].
  destruct (Ascii.eqb_spec c sep) as [->|Hne]; [destruct Hs; by left|].
  rewrite IH by (intros Hin; apply Hs; by right).
  by rewrite <- app_assoc.
Qed.

(** Splitting at the separator undoes joining with it, for pieces that do
    not contain it. *)
Lemma split_on_concat (sep : ascii) (pieces : list string) :
  pieces ≠ [] →
  Forall (fun piece => ¬ In sep (String.list_ascii_of_string piece)) pieces →
  split_on sep [] (String.list_ascii_of_string
                     (String.concat (String sep EmptyString) pieces))
  = map String.list_ascii_of_string pieces.
Proof.
  intros Hne Hall. induction Hall as [|piece pieces Hpiece Hall IH]; [done|].
  destruct pieces as [|piece' pieces].
  - simpl. rewrite <- (app_nil_r (String.list_ascii_of_string piece)) at 1.
    rewrite split_on_piece by done. simpl.
    by rewrite app_nil_r, rev_involutive.
  - change (String.concat (String sep EmptyString) (piece :: piece' :: pieces))
      with (piece +:+ String sep EmptyString +:+
            String.concat (String sep EmptyString) (piece' :: pieces)).
    rewrite !list_ascii_of_string_app. rewrite split_on_piece by done.
    change (String.list_ascii_of_string (String sep EmptyString)) with [sep].
    change ([sep] ++ ?l) with (sep :: l).
    cbn [split_on]. rewrite Ascii.eqb_refl.
    rewrite app_nil_r, rev_involutive, IH by done. done.
Qed.

Lemma py_split_format_centroid {F : Type} `{PyNum F} (centroid : list F) :
  centroid ≠ [] → Forall (fun x => comma_free (fmt4 x)) centroid →
  py_split "," (format_centroid centroid) = map fmt4 centroid.
Proof.
  intros Hne Hfree. unfold py_split, format_centroid.
  rewrite split_on_concat.
  - rewrite map_map. rewrite <- (map_id (map fmt4 centroid)) at 2.
    apply map_ext. intros s. apply String.string_of_list_ascii_of_string.
  - by destruct centroid.
  - apply Forall_forall. intros s Hs.
    apply list_elem_of_In, in_map_iff in Hs as (x & <- & Hx%list_elem_of_In).
    rewrite Forall_forall in Hfree. by apply Hfree.
Qed.

(** ** The engine on a valid input *)

Section Engine.
Context {F : Type} `{PyNum F}.

Lemma centroid_outcome_total (d : nat) (clusters : list (list (list F)))
    (cents : list (list F)) (eps : F) (j : nat) :
  length clusters = length cents → Forall (dimension d) clusters →
  dimension d cents → (j < length cents)%nat →
  overflow_or (fun r => length r.1 = d) (centroid_outcome clusters cents eps j).
Proof.
  intros Hlen Hcl Hcents Hj. unfold centroid_outcome.
  destruct (index_lt clusters j) as (bucket & -> & Hb); [lia|].
  destruct (index_lt cents j) as (old & Hio & Hold); [lia|].
  pose proof (Forall_lookup_1 _ _ _ _ Hcents Hold) as Hdo. simpl in Hdo.
  pose proof (Forall_lookup_1 _ _ _ _ Hcl Hb) as Hdb.
  cbn [mbind res_bind]. destruct bucket as [|first rest].
  - rewrite Hio. simpl. done.
  - rewrite bucket_mean_cases.
    assert (Hfirst : length first = d) by (by inversion Hdb).
    rewrite decide_True.
    2: { eapply Forall_impl; [exact Hdb|]. simpl. intros p Hp. lia. }
    cbn [mbind res_bind]. rewrite Hio. cbn [mbind res_bind].
    pose proof (euclidean_distance_total old
                  (arithmetic_mean (length first) (first :: rest))) as Hdist.
    rewrite arithmetic_mean_length in Hdist.
    destruct (euclidean_distance old _) as [dist|e]; simpl.
    + by rewrite arithmetic_mean_length.
    + apply Hdist. lia.
Qed.

(** [update_centroids] on buckets and centroids of dimension [d]: as many
    centroids as before, of dimension [d]. *)
Lemma update_centroids_total (d : nat) (clusters : list (list (list F)))
    (cents : list (list F)) (eps : F) :
  length clusters = length cents → Forall (dimension d) clusters →
  dimension d cents →
  overflow_or (fun r => length r.1 = length cents ∧ dimension d r.1)
              (update_centroids clusters cents eps).
Proof.
  intros Hlen Hcl Hcents. rewrite update_centroids_outcomes.
  pose proof (comprehension_inv (fun (_ : nat) (r : list F * bool) => length r.1 = d)
                (fun e => e = OverflowError)
                (centroid_outcome clusters cents eps) (range (length cents))) as Hc.
  destruct (comprehension _ _) as [rs|e] eqn:Hrs; simpl.
  - rewrite length_fmap. split.
    + apply comprehension_length in Hrs. unfold range in Hrs.
      by rewrite length_seq in Hrs.
    + unfold dimension. apply Forall_fmap.
      assert (Hall : Forall2 (fun (_ : nat) (r : list F * bool) => length r.1 = d)
                       (range (length cents)) rs).
      { apply Hc. intros j [_ Hj]%elem_of_seq.
        by apply centroid_outcome_total. }
      clear -Hall. induction Hall; constructor; done.
  - apply Hc. intros j [_ Hj]%elem_of_seq. by apply centroid_outcome_total.
Qed.

Lemma comprehension_index_from {A : Type} (l : list A) (n s : nat) :
  (s + n ≤ length l)%nat →
  comprehension (index l) (seq s n) = Ok (take n (drop s l)).
Proof.
  revert s. induction n as [|n IH]; intros s Hlen; simpl; [done|].
  destruct (index_lt l s) as (x & -> & Hx); [lia|].
  rewrite IH by lia. by rewrite (drop_S l x s Hx).
Qed.

Lemma validate_vector_dimensions_valid (d : nat) (vectors : list (list F)) :
  vectors ≠ [] → dimension d vectors →
  validate_vector_dimensions vectors = (true, []).
Proof.
  intros Hne Hdim. unfold validate_vector_dimensions.
  destruct vectors as [|first rest] eqn:Hvs; [done|]. rewrite <- Hvs in *.
  assert (Hall : forallb (fun v : list F => Nat.eqb (length v) (length first)) vectors
                 = true).
  { apply forallb_forall. intros v Hv%list_elem_of_In.
    unfold dimension in Hdim. rewrite Forall_forall in Hdim.
    apply Nat.eqb_eq. rewrite (Hdim v Hv). symmetry. apply Hdim.
    subst vectors. by left. }
  by rewrite Hall.
Qed.

(** The first [k] vectors become the centroids. *)
Lemma initialize_centroids_valid (vectors : list (list F)) (k : Z) :
  0 <= k → k < Z.of_nat (length vectors) →
  initialize_centroids vectors k = (Ok (Some (take (Z.to_nat k) vectors, k)), []).
Proof.
  intros Hk Hlt. unfold initialize_centroids.
  rewrite (proj2 (Z.leb_gt _ _)) by lia.
  unfold range. rewrite comprehension_index_from by lia.
  by rewrite drop_0.
Qed.

Lemma loop_body_total (k d : nat) (vectors : list (list F)) (eps : F)
    (st : loop_state F) :
  (0 < k)%nat → dimension d vectors → engine_inv k d st →
  overflow_or (engine_inv k d) (loop_body vectors eps st).
Proof.
  intros Hk Hvs (Hlen & Hdim & Hcl). unfold loop_body.
  eapply overflow_or_bind.
  { apply (assign_clusters_total d); [done|done|].
    intros Hnil. rewrite Hnil in Hlen. simpl in Hlen. lia. }
  intros cl [Hcl_len Hcl_dim]. cbv beta.
  eapply overflow_or_bind.
  { by apply (update_centroids_total d). }
  intros [new flag] [Hnew_len Hnew_dim]. unfold engine_inv. simpl in *.
  split; [lia|]. split; [done|]. split; [|split; [lia|done]].
  destruct (clusters st); lia.
Qed.

Lemma initial_state_inv (k d : nat) (cents : list (list F)) :
  length cents = k → dimension d cents → engine_inv k d (initial_state cents).
Proof. intros Hlen Hdim. by repeat split. Qed.

Lemma valid_input_centroids (d : nat) (k max_iter : Z) (vectors : list (list F)) :
  valid_input d k max_iter vectors →
  let cents := take (Z.to_nat k) vectors in
  length cents = Z.to_nat k ∧ dimension d cents ∧ (0 < Z.to_nat k)%nat.
Proof.
  intros (Hne & Hdim & Hk1 & Hkn & Hiter). simpl.
  split; [rewrite length_take; lia|]. split; [|lia].
  by apply Forall_take.
Qed.

(** On a valid input [kmeans_clustering] is its loop, started on the first
    [k] vectors, followed by the printing of the centroids. *)
Lemma kmeans_clustering_valid (d : nat) (k max_iter : Z) (vectors : list (list F))
    (eps : option F) :
  valid_input d k max_iter vectors →
  kmeans_clustering k max_iter vectors eps =
    match kmeans_loop max_iter vectors (default default_eps eps)
            (initial_state (take (Z.to_nat k) vectors)) with
    | Raise e => (Raise e, [])
    | Ok st =>
        match clusters st with
        | None => (Raise UnboundLocalError, [])
        | Some cl => (Ok (Some cl), print_results cl (centroids st))
        end
    end.
Proof.
  intros (Hne & Hdim & Hk1 & Hkn & Hiter). unfold kmeans_clustering.
  rewrite (validate_vector_dimensions_valid d) by done. simpl.
  rewrite initialize_centroids_valid by lia. done.
Qed.

(** The loop on a valid input: it ends after at least one pass, in a state
    that satisfies the invariant, unless a square overflows. *)
Lemma kmeans_loop_valid (d : nat) (k max_iter : Z) (vectors : list (list F)) (eps : F) :
  valid_input d k max_iter vectors →
  overflow_or (fun st => engine_inv (Z.to_nat k) d st ∧
                         ∃ cl, clusters st = Some cl ∧ 1 <= curr_iter st)
    (kmeans_loop max_iter vectors eps (initial_state (take (Z.to_nat k) vectors))).
Proof.
  intros Hvalid.
  destruct (valid_input_centroids _ _ _ _ Hvalid) as (Hlen & Hdim & Hk).
  destruct Hvalid as (Hne & Hvs & Hk1 & Hkn & Hiter).
  pose proof (kmeans_loop_inv (engine_inv (Z.to_nat k) d) (fun e => e = OverflowError)
                max_iter vectors eps (initial_state (take (Z.to_nat k) vectors)))
    as Hloop.
  destruct (kmeans_loop _ _ _ _) as [st|e]; simpl.
  - destruct Hloop as [Hinv Hcond].
    { intros st0 Hst0 _. by apply (loop_body_total (Z.to_nat k) d). }
    { by apply initial_state_inv. }
    split; [done|]. destruct Hinv as (_ & _ & Hcl).
    destruct (clusters st) as [cl|]; [exists cl; split; [done|lia]|].
    destruct Hcl as [Hzero Hconv]. unfold loop_cond in Hcond.
    rewrite Hconv, Hzero in Hcond. simpl in Hcond.
    apply Z.ltb_ge in Hcond. lia.
  - apply Hloop.
    + intros st0 Hst0 _. by apply (loop_body_total (Z.to_nat k) d).
    + by apply initial_state_inv.
Qed.

(** The last pass of the loop: the buckets left were assigned to the
    centroids of that pass, and the centroids and the flag left are their
    update. *)
Lemma kmeans_loop_last_pass (max_iter : Z) (vectors cents : list (list F)) (eps : F)
    (st : loop_state F) (cl : list (list (list F))) :
  kmeans_loop max_iter vectors eps (initial_state cents) = Ok st →
  clusters st = Some cl →
  ∃ previous,
    assign_clusters vectors previous = Ok cl ∧
    update_centroids cl previous eps = Ok (centroids st, converged st).
Proof.
  intros Hloop Hcl.
  pose proof (kmeans_loop_inv
                (fun st => ∀ cl, clusters st = Some cl →
                   ∃ previous,
                     assign_clusters vectors previous = Ok cl ∧
                     update_centroids cl previous eps = Ok (centroids st, converged st))
                (fun _ => True) max_iter vectors eps (initial_state cents)) as Hinv.
  rewrite Hloop in Hinv. apply Hinv; [|done|done].
  intros st0 _ _. destruct (loop_body vectors eps st0) as [st1|e] eqn:Hbody; [|done].
  apply loop_body_Ok in Hbody as (cl1 & new & flag & Hassign & Hupdate & ->).
  simpl. intros cl' [= <-]. by exists (centroids st0).
Qed.

(** The centroids [update_centroids] returns, one by one. *)
Lemma update_centroids_entries (cl : list (list (list F))) (previous new : list (list F))
    (eps : F) (flag : bool) (j : nat) (c : list F) :
  update_centroids cl previous eps = Ok (new, flag) → new !! j = Some c →
  ∃ bucket old,
    cl !! j = Some bucket ∧ previous !! j = Some old ∧
    c = match bucket with
        | [] => old
        | first :: _ => arithmetic_mean (length first) bucket
        end.
Proof.
  intros (rs & -> & _ & Hlen & Hrs)%update_centroids_Ok Hc.
  apply list_lookup_fmap_Some in Hc as (r & -> & Hr).
  destruct (Hrs j) as (r' & Hr' & Hout); [rewrite <- Hlen; by eapply lookup_lt_Some|].
  assert (r' = r) as -> by congruence.
  destruct (lookup_lt_is_Some_2 previous j) as [old Hold];
    [rewrite <- Hlen; by eapply lookup_lt_Some|].
  destruct (cl !! j) as [[|first rest]|] eqn:Hb.
  - exists [], old. rewrite (centroid_outcome_empty _ _ _ _ old Hb Hold) in Hout.
    by injection Hout as <-.
  - exists (first :: rest), old.
    by destruct (centroid_outcome_members _ _ _ _ _ _ _ Hb Hout) as [-> _].
  - unfold centroid_outcome, index in Hout. by rewrite Hb in Hout.
Qed.

(** C7, as the code has it.  On a valid input every state of the loop has
    exactly [k] centroids of the dimension [d] of the input and, once the
    body has run, exactly [k] buckets of vectors of dimension [d].  A run
    that does not end with the [OverflowError] of a square prints exactly
    [k] lines.  Line [j] is the centroid [j] the loop left, its coordinates
    formatted and joined by commas; this centroid has dimension [d], being
    the mean of bucket [j] of the last pass or, for an empty bucket, the
    centroid before that pass; and, the format writing no comma and [d]
    being positive, the line splits at the commas into exactly [d]
    fields, the formatted coordinates. *)
Theorem cluster_count_and_dimension (d : nat) (k max_iter : Z)
    (vectors : list (vector F)) (eps : option F) :
  valid_input d k max_iter vectors →
  (∀ st, iterates max_iter vectors (default default_eps eps)
           (initial_state (take (Z.to_nat k) vectors)) st →
         Z.of_nat (length (centroids st)) = k ∧ dimension d (centroids st) ∧
         ∀ cl, clusters st = Some cl →
               Z.of_nat (length cl) = k ∧ Forall (dimension d) cl) ∧
  (kmeans_clustering k max_iter vectors eps = (Raise OverflowError, []) ∨
   ∃ st cl previous,
     kmeans_loop max_iter vectors (default default_eps eps)
       (initial_state (take (Z.to_nat k) vectors)) = Ok st ∧
     clusters st = Some cl ∧
     kmeans_clustering k max_iter vectors eps
     = (Ok (Some cl), map format_centroid (centroids st)) ∧
     Z.of_nat (length (map format_centroid (centroids st))) = k ∧
     Z.of_nat (length cl) = k ∧ Forall (dimension d) cl ∧
     assign_clusters vectors previous = Ok cl ∧
     update_centroids cl previous (default default_eps eps)
     = Ok (centroids st, converged st) ∧
     ∀ j line,
       map format_centroid (centroids st) !! j = Some line →
       ∃ c bucket old,
         centroids st !! j = Some c ∧ length c = d ∧
         line = String.concat "," (map fmt4 c) ∧
         cl !! j = Some bucket ∧ previous !! j = Some old ∧
         c = match bucket with
             | [] => old
             | _ :: _ => arithmetic_mean d bucket
             end ∧
         ((0 < d)%nat → Forall (fun x => comma_free (fmt4 x)) c →
          py_split "," line = map fmt4 c ∧
          length (py_split "," line) = d)).
Proof.
  intros Hvalid.
  destruct (valid_input_centroids _ _ _ _ Hvalid) as (Hlen & Hdim & Hk).
  assert (Hk0 : 0 <= k) by (destruct Hvalid as (_ & _ & ? & _); lia).
  split.
  - intros st Hit.
    assert (Hinv : engine_inv (Z.to_nat k) d st).
    { apply (iterates_inv (engine_inv (Z.to_nat k) d) max_iter vectors
               (default default_eps eps) (initial_state (take (Z.to_nat k) vectors)) st);
        [|by apply initial_state_inv|exact Hit].
      intros st0 st1 Hst0 _ Hbody.
      pose proof (loop_body_total (Z.to_nat k) d vectors (default default_eps eps) st0)
        as Htotal.
      rewrite Hbody in Htotal. apply Htotal; [done| |done].
      by destruct Hvalid as (_ & ? & _). }
    destruct Hinv as (Hl & Hd & Hcl). split; [lia|]. split; [done|].
    intros cl Hsome. rewrite Hsome in Hcl. destruct Hcl as (_ & Hcl & Hcd).
    split; [lia|done].
  - rewrite (kmeans_clustering_valid d) by done.
    pose proof (kmeans_loop_valid d k max_iter vectors (default default_eps eps) Hvalid)
      as Hloop.
    destruct (kmeans_loop _ _ _ _) as [st|e] eqn:Hrun; simpl in Hloop.
    2: { left. by subst e. }
    right. destruct Hloop as [(Hl & Hd & Hcl) (cl & Hsome & Hiter)].
    rewrite Hsome in Hcl |- *. destruct Hcl as (_ & Hcl & Hcd).
    destruct (kmeans_loop_last_pass _ _ _ _ _ _ Hrun Hsome)
      as (previous & Hassign & Hupdate).
    exists st, cl, previous. rewrite length_map.
    split; [done|]. split; [done|]. split; [done|]. split; [lia|].
    split; [lia|]. split; [done|]. split; [done|]. split; [done|].
    intros j line Hline.
    change (map format_centroid (centroids st)) with (format_centroid <$> centroids st)
      in Hline.
    apply list_lookup_fmap_Some in Hline as (c & -> & Hc).
    destruct (update_centroids_entries _ _ _ _ _ _ _ Hupdate Hc)
      as (bucket & old & Hb & Hold & Hmean).
    pose proof (Forall_lookup_1 _ _ _ _ Hd Hc) as Hcd'. simpl in Hcd'.
    exists c, bucket, old. split; [done|]. split; [done|]. split; [done|].
    split; [done|]. split; [done|]. split.
    + destruct bucket as [|first rest]; [done|].
      pose proof (Forall_lookup_1 _ _ _ _ Hcd Hb) as Hbd.
      apply Forall_cons in Hbd as [Hfirst _]. by rewrite <- Hfirst.
    + intros Hpos Hfree.
      assert (Hsplit : py_split "," (format_centroid c) = map fmt4 c).
      { apply py_split_format_centroid; [|done]. intros ->. simpl in Hcd'. lia. }
      split; [done|]. by rewrite Hsplit, length_map.
Qed.


(** C9, as the code has it.  On a valid input [kmeans_clustering] fails in
    one way only, the [OverflowError] of a square: it raises no
    [ZeroDivisionError], [IndexError], [ValueError] or [UnboundLocalError]
    and takes no error branch.  Otherwise the loop has made at least one
    pass, the buckets are defined and returned, and the centroids are
    printed. *)
Theorem kmeans_clustering_total (d : nat) (k max_iter : Z)
    (vectors : list (vector F)) (eps : option F) :
  valid_input d k max_iter vectors →
  kmeans_clustering k max_iter vectors eps = (Raise OverflowError, []) ∨
  ∃ st cl,
    kmeans_loop max_iter vectors (default default_eps eps)
      (initial_state (take (Z.to_nat k) vectors)) = Ok st ∧
    1 <= curr_iter st ∧ clusters st = Some cl ∧
    kmeans_clustering k max_iter vectors eps =
      (Ok (Some cl), print_results cl (centroids st)).
Proof.
  intros Hvalid. rewrite (kmeans_clustering_valid d) by done.
  pose proof (kmeans_loop_valid d k max_iter vectors (default default_eps eps) Hvalid)
    as Hloop.
  destruct (kmeans_loop _ _ _ _) as [st|e]; simpl in Hloop.
  - right. destruct Hloop as [_ (cl & Hsome & Hiter)].
    exists st, cl. by rewrite Hsome.
  - left. by subst e.
Qed.

End Engine.

(** ** The command line *)

Lemma int_digits_dot (s : list ascii) (acc : Z) (after_digit : bool) :
  In "."%char s → int_digits acc after_digit s = None.
Proof.
  revert acc after_digit. induction s as [|c s IH]; intros acc after_digit; [done|].
  intros [->|Hin]; [done|]. simpl.
  destruct (Ascii.eqb c "_").
  - destruct after_digit; [by apply IH|done].
  - destruct (digit_value c); [by apply IH|done].
Qed.

Lemma lstrip_numeral_In (c : ascii) (s : list ascii) :
  In c s → is_numeral_space c = false → In c (lstrip_numeral s).
Proof.
  intros Hin Hc. induction s as [|c' s IH]; [done|]. simpl.
  destruct (is_numeral_space c') eqn:Hc'; [|done].
  destruct Hin as [->|Hin]; [congruence|by apply IH].
Qed.

Lemma strip_numeral_In (c : ascii) (s : list ascii) :
  In c s → is_numeral_space c = false → In c (strip_numeral s).
Proof.
  intros Hin Hc. unfold strip_numeral.
  apply in_rev. rewrite rev_involutive.
  apply lstrip_numeral_In; [|done]. apply -> in_rev. by apply lstrip_numeral_In.
Qed.

(** [int] rejects every string that has a decimal point. *)
Lemma py_int_dot (s : string) :
  In "."%char (String.list_ascii_of_string s) → py_int s = None.
Proof.
  intros Hin%strip_numeral_In; [|done]. unfold py_int.
  destruct (strip_numeral _) as [|c s']; [done|].
  destruct (int_max_str_digits <? digit_count _)%nat; [done|].
  destruct (Ascii.eqb c "-") eqn:Hminus.
  - apply Ascii.eqb_eq in Hminus as ->.
    destruct Hin as [[=]|Hin]. by rewrite int_digits_dot.
  - destruct (Ascii.eqb c "+") eqn:Hplus.
    + apply Ascii.eqb_eq in Hplus as ->.
      destruct Hin as [[=]|Hin]. by rewrite int_digits_dot.
    + by apply int_digits_dot.
Qed.

Section CommandLine.
Context {F : Type} `{PyNum F}.

Lemma main_rejected (w : world) (out : list string) :
  parse_command_line_args (argv w) = (None, out) →
  main (F:=F) w = (Ok 1, out) ∧ exit_status (F:=F) w = 1.
Proof. intros Hparse. unfold exit_status, main. by rewrite Hparse. Qed.

(** C1, as the code has it.  [int] does not read "3.0" or "42.0000", nor any
    other numeral with a decimal point, so a run with such a [k] or
    [max_iter] prints the generic notice and ends with status 1 whatever the
    input vectors are. *)
Theorem float_looking_parameters_rejected :
  (∀ s, In "."%char (String.list_ascii_of_string s) → py_int s = None) ∧
  (∀ rest files input,
     let w := World ("3.0" :: rest) files input in
     main (F:=F) w = (Ok 1, [generic_error]) ∧ exit_status (F:=F) w = 1) ∧
  (∀ file files input,
     let w := World ["3"; "42.0000"; file] files input in
     main (F:=F) w = (Ok 1, [generic_error]) ∧ exit_status (F:=F) w = 1).
Proof.
  split; [exact py_int_dot|]. split.
  - intros rest files input w. by apply main_rejected.
  - intros file files input w. by apply main_rejected.
Qed.

(** C2, as the code has it.  With three arguments an integer [max_iter] is
    accepted exactly when [1 < max_iter < 1000] and rejected with the
    iteration-count notice otherwise; with one or two arguments [max_iter]
    is 400. *)
Theorem max_iter_range (arg0 arg1 arg2 : string) (k max_iter : Z) :
  py_int arg0 = Some k → 1 < k → py_int arg1 = Some max_iter →
  (1 < max_iter < 1000 →
   parse_command_line_args [arg0; arg1; arg2] = (Some (k, max_iter, Some arg2), [])) ∧
  (¬ 1 < max_iter < 1000 →
   parse_command_line_args [arg0; arg1; arg2] = (None, [invalid_iterations])) ∧
  parse_command_line_args [arg0] = (Some (k, 400, None), []) ∧
  (∀ arg, parse_command_line_args [arg0; arg] = (Some (k, 400, Some arg), [])).
Proof.
  intros Hk Hk1 Hm. unfold parse_command_line_args, MIN_K, MIN_ITER, MAX_ITER.
  rewrite Hk, Hm. rewrite (proj2 (Z.leb_gt k 1)) by lia.
  repeat split; try done.
  - intros Hrange.
    by rewrite (proj2 (Z.leb_gt max_iter 1)), (proj2 (Z.leb_gt 1000 max_iter)) by lia.
  - intros Hout. destruct (Z.leb_spec max_iter 1); [done|].
    destruct (Z.leb_spec 1000 max_iter); [done|lia].
Qed.


(** C10.  With two arguments the second one is the file: [max_iter] is 400
    whatever the second argument is, also when it reads as a number, and the
    vectors come from the file of that name. *)
Theorem second_argument_is_file (arg0 arg1 : string) (k : Z) :
  py_int arg0 = Some k → 1 < k →
  parse_command_line_args [arg0; arg1] = (Some (k, DEFAULT_ITER, Some arg1), []) ∧
  DEFAULT_ITER = 400 ∧
  (∀ files input,
     let w := World [arg0; arg1] files input in
     main (F:=F) w =
       match read_vectors w (Some arg1) with
       | (None, out) => (Ok 1, out)
       | (Some vectors, out) =>
           match kmeans_clustering k 400 vectors None with
           | (Raise e, out') => (Raise e, out ++ out')
           | (Ok None, out') => (Ok 1, out ++ out')
           | (Ok (Some _), out') => (Ok 0, out ++ out')
           end
       end) ∧
  (∀ files input,
     arg1 ≠ EmptyString → files arg1 = None →
     main (F:=F) (World [arg0; arg1] files input) = (Ok 1, [generic_error])).
Proof.
  intros Hk Hk1.
  assert (Hparse : parse_command_line_args [arg0; arg1]
                   = (Some (k, DEFAULT_ITER, Some arg1), [])).
  { unfold parse_command_line_args, MIN_K. rewrite Hk.
    by rewrite (proj2 (Z.leb_gt k 1)) by lia. }
  split; [done|]. split; [done|]. split.
  - intros files input w. unfold main. simpl argv. rewrite Hparse.
    by destruct (read_vectors w (Some arg1)) as [[vs|] out].
  - intros files input Hne Hnone. unfold main. simpl argv. rewrite Hparse.
    unfold read_vectors. simpl. destruct arg1; [done|]. by rewrite Hnone.
Qed.

End CommandLine.

(** * Further properties *)

(** ** Distances *)

Section Distances.
Context {F : Type} `{PyNum F}.

Lemma raises_only_bind {A B : Type} (bad : exn → Prop) (m : res A) (f : A → res B) :
  raises_only bad m → (∀ a, m = Ok a → raises_only bad (f a)) →
  raises_only bad (m ≫= f).
Proof. destruct m as [a|e]; simpl; [|done]. intros _ Hf. by apply Hf. Qed.

Lemma raises_only_comprehension {X Y : Type} (bad : exn → Prop) (f : X → res Y)
    (xs : list X) :
  (∀ x, x ∈ xs → raises_only bad (f x)) → raises_only bad (comprehension f xs).
Proof.
  intros Hf.
  pose proof (comprehension_inv (fun _ _ => True) bad f xs) as Hc.
  unfold raises_only. destruct (comprehension f xs) as [ys|e]; [done|].
  apply Hc. intros x Hx. specialize (Hf x Hx). unfold raises_only in Hf.
  by destruct (f x).
Qed.

Lemma raises_only_for_each {S X : Type} (I : S → Prop) (bad : exn → Prop)
    (body : S → X → res S) (xs : list X) (s : S) :
  I s →
  (∀ s x, I s → x ∈ xs →
     match body s x with Ok s' => I s' | Raise e => bad e end) →
  raises_only bad (for_each body s xs).
Proof.
  intros Hs Hbody. pose proof (for_each_inv I bad body xs s Hs Hbody) as Hinv.
  unfold raises_only. by destruct (for_each body s xs).
Qed.


Lemma euclidean_distance_raises (point centroid : list F) :
  raises_only (fun e => e = IndexError ∨ e = OverflowError)
              (euclidean_distance point centroid).
Proof.
  unfold euclidean_distance. apply raises_only_bind; [|done].
  unfold py_sum. apply raises_only_bind; [|done].
  apply raises_only_comprehension. intros i [_ Hi]%elem_of_seq. simpl in Hi.
  unfold squared_diff.
  destruct (index_lt point i) as (p & -> & _); [lia|]. cbn [mbind res_bind].
  unfold index. destruct (centroid !! i); cbn [mbind res_bind]; [|by left].
  unfold pow2. destruct (fsquare _); simpl; [done|by right].
Qed.


End Distances.

(** ** Buckets *)

Section Buckets.
Context {F : Type} `{PyNum F}.

(** [closest_centroid] fails as a distance does, or on no centroid at all;
    its result is the index of a centroid. *)
Lemma closest_centroid_cases (v : list F) (cents : list (list F)) :
  match closest_centroid v cents with
  | Ok c => (c < length cents)%nat
  | Raise e => e = IndexError ∨ e = OverflowError ∨ (e = ValueError ∧ cents = [])
  end.
Proof.
  unfold closest_centroid, distances_of.
  pose proof (raises_only_comprehension (fun e => e = IndexError ∨ e = OverflowError)
                (euclidean_distance v) cents
                (fun c _ => euclidean_distance_raises v c)) as Hds.
  destruct (comprehension (euclidean_distance v) cents) as [ds|e] eqn:Hcomp;
    cbn [mbind res_bind]; [|simpl in Hds; tauto].
  apply comprehension_length in Hcomp.
  destruct (py_min ds) as [m|e] eqn:Hm; cbn [mbind res_bind].
  - pose proof (py_min_item _ _ Hm) as Hitem%lookup_lt_Some.
    destruct (index_from_total ds O m) as (c & Hc & Hclt); [lia|lia|].
    unfold py_list_index. rewrite Hc. simpl in Hclt. lia.
  - destruct ds as [|x l]; [|done]. injection Hm as <-.
    right; right. split; [done|]. by destruct cents.
Qed.

Lemma length_concat_alter_snoc {A : Type} (l : list (list A)) (c : nat) (x : A) :
  (c < length l)%nat →
  length (concat (alter (fun b => b ++ [x]) c l)) = S (length (concat l)).
Proof.
  revert c. induction l as [|b l IH]; intros c Hc; simpl in Hc; [lia|].
  destruct c as [|c].
  - change (alter (fun b => b ++ [x]) 0%nat (b :: l)) with ((b ++ [x]) :: l).
    simpl. rewrite !length_app. simpl. lia.
  - change (alter (fun b => b ++ [x]) (S c) (b :: l))
      with (b :: alter (fun b => b ++ [x]) c l).
    simpl. rewrite !length_app, IH by lia. lia.
Qed.

(** The loop of [assign_clusters], from any buckets. *)
Lemma assign_loop_buckets (cents : list (list F)) (vectors : list (list F))
    (clusters clusters' : list (list (list F))) :
  for_each (fun clusters v => c ← closest_centroid v cents; append_to clusters c v)
           clusters vectors = Ok clusters' →
  length clusters' = length clusters ∧
  length (concat clusters') = (length (concat clusters) + length vectors)%nat ∧
  ∀ j b, clusters !! j = Some b →
         clusters' !! j = Some (b ++ List.filter (assigned_to cents j) vectors).
Proof.
  revert clusters. induction vectors as [|v vectors IH]; intros clusters; simpl.
  - intros [= <-]. split; [done|]. split; [lia|].
    intros j b Hb. by rewrite app_nil_r.
  - destruct (closest_centroid v cents) as [c|e] eqn:Hc; cbn [mbind res_bind]; [|done].
    unfold append_to. destruct (clusters !! c) as [bc|] eqn:Hbc; [|done].
    intros Hrest. destruct (IH _ Hrest) as (Hlen & Hcount & Hbuckets).
    rewrite length_alter in Hlen.
    rewrite length_concat_alter_snoc in Hcount by (by eapply lookup_lt_Some).
    split; [done|]. split; [lia|].
    intros j b Hb. unfold assigned_to at 1. rewrite Hc.
    destruct (Nat.eqb_spec c j) as [->|Hne].
    + rewrite (Hbuckets j (b ++ [v])); [by rewrite <- app_assoc|].
      by rewrite list_lookup_alter_eq, Hb.
    + rewrite (Hbuckets j b); [done|]. by rewrite list_lookup_alter_ne.
Qed.

(** X2.  [assign_clusters] partitions the vectors: it returns one bucket
    for each centroid, bucket [j] holds the vectors whose nearest centroid is
    [j], in the order of the input, and the buckets together hold as many
    vectors as the input. *)
Theorem assign_clusters_partition (vectors cents : list (vector F))
    (clusters : list (list (vector F))) :
  assign_clusters vectors cents = Ok clusters →
  length clusters = length cents ∧
  (∀ j, (j < length cents)%nat →
        clusters !! j = Some (List.filter (assigned_to cents j) vectors)) ∧
  length (concat clusters) = length vectors.
Proof.
  intros (Hlen & Hcount & Hbuckets)%assign_loop_buckets.
  rewrite length_replicate in Hlen. split; [done|]. split.
  - intros j Hj. by rewrite (Hbuckets j []) by (by apply lookup_replicate_2).
  - rewrite Hcount. clear. induction (length cents); simpl; [done|]. lia.
Qed.

(** X3.  On any vectors and centroids, [assign_clusters] raises nothing but
    the [IndexError] of a centroid shorter than a vector, the
    [OverflowError] of a square, and the [ValueError] of [min] on no
    distances, that one only when there is no centroid but there is a
    vector; appending to the chosen bucket never fails. *)
Theorem assign_clusters_raises (vectors cents : list (vector F)) (e : exn) :
  assign_clusters vectors cents = Raise e →
  e = IndexError ∨ e = OverflowError ∨
  (e = ValueError ∧ cents = [] ∧ vectors ≠ []).
Proof.
  unfold assign_clusters. intros Hraise.
  pose proof (raises_only_for_each
                (fun clusters : list (list (list F)) => length clusters = length cents)
                (fun e => e = IndexError ∨ e = OverflowError ∨
                          (e = ValueError ∧ cents = [] ∧ vectors ≠ []))
                (fun clusters v => c ← closest_centroid v cents; append_to clusters c v)
                vectors (replicate (length cents) [])) as Hloop.
  rewrite Hraise in Hloop. apply Hloop; [by rewrite length_replicate|].
  intros clusters v Hlen Hv.
  pose proof (closest_centroid_cases v cents) as Hc.
  destruct (closest_centroid v cents) as [c|e']; cbn [mbind res_bind].
  - unfold append_to.
    destruct (lookup_lt_is_Some_2 clusters c) as [b ->]; [lia|].
    by rewrite length_alter.
  - destruct Hc as [->|[->|[-> ->]]]; [by left|by right; left|].
    right; right. split; [done|]. split; [done|].
    intros ->. by apply elem_of_nil in Hv.
Qed.

Lemma column_sum_take (d j : nat) (bucket : list (list F)) (acc : F) :
  (j < d)%nat → Forall (fun p => (d ≤ length p)%nat) bucket →
  foldl (fun s p => fadd s (coordinate j p)) acc (take d <$> bucket) =
  foldl (fun s p => fadd s (coordinate j p)) acc bucket.
Proof.
  intros Hj Hall. revert acc.
  induction Hall as [|p ps Hp Hall IH]; intros acc; simpl; [done|].
  rewrite IH. do 2 f_equal.
  unfold coordinate. by rewrite lookup_take_lt by lia.
Qed.

(** X4.  The mean of a bucket has the dimension of its first member.  The
    call fails, with [IndexError], exactly when a member has fewer
    coordinates than the first; coordinates beyond those of the first member
    are not read. *)
Theorem bucket_mean_dimension (first : vector F) (rest : list (vector F)) :
  let bucket := first :: rest in
  let d := length first in
  (Forall (fun p => (d ≤ length p)%nat) bucket →
   ∃ mean, bucket_mean bucket = Ok mean ∧ length mean = d ∧
           bucket_mean (take d <$> bucket) = Ok mean) ∧
  (¬ Forall (fun p => (d ≤ length p)%nat) bucket →
   bucket_mean bucket = Raise IndexError).
Proof.
  intros bucket d. subst bucket d. split.
  - intros Hall. rewrite bucket_mean_cases.
    rewrite decide_True by done.
    exists (arithmetic_mean (length first) (first :: rest)).
    split; [done|]. split; [apply arithmetic_mean_length|].
    rewrite fmap_cons, bucket_mean_cases.
    assert (Hd : length (take (length first) first) = length first)
      by (by apply length_take_le).
    rewrite Hd. rewrite <- fmap_cons.
    rewrite decide_True.
    2: { apply Forall_fmap. eapply Forall_impl; [exact Hall|].
         intros p Hp. simpl. by rewrite length_take_le. }
    f_equal. unfold arithmetic_mean. rewrite length_fmap.
    apply list_fmap_ext. intros i j [-> Hj]%lookup_seq. cbv beta.
    by rewrite column_sum_take.
  - intros Hsome. rewrite bucket_mean_cases.
    by rewrite decide_False.
Qed.

(** X5.  On any buckets and centroids, [update_centroids] raises nothing
    but [IndexError] (a bucket or a coordinate that is missing) and the
    [OverflowError] of a square: the division by the size of a bucket is
    never a division by zero. *)
Theorem update_centroids_raises (clusters : list (list (vector F)))
    (cents : list (vector F)) (eps : F) (e : exn) :
  update_centroids clusters cents eps = Raise e →
  e = IndexError ∨ e = OverflowError.
Proof.
  rewrite update_centroids_outcomes. intros Hraise.
  pose proof (raises_only_comprehension (fun e => e = IndexError ∨ e = OverflowError)
                (centroid_outcome clusters cents eps) (range (length cents))) as Hc.
  destruct (comprehension _ _) as [rs|e'] eqn:Hrs; [done|].
  injection Hraise as ->. apply Hc. intros j _.
  unfold centroid_outcome, index.
  destruct (clusters !! j) as [[|first rest]|]; cbn [mbind res_bind]; [| |by left].
  - destruct (cents !! j); cbn [mbind res_bind]; [done|by left].
  - rewrite bucket_mean_cases. case_decide; cbn [mbind res_bind]; [|by left].
    destruct (cents !! j) as [old|]; cbn [mbind res_bind]; [|by left].
    pose proof (euclidean_distance_raises old
                  (arithmetic_mean (length first) (first :: rest))) as Hd.
    by destruct (euclidean_distance old _).
Qed.

End Buckets.

(** ** The checks of the engine *)

Section Checks.
Context {F : Type} `{PyNum F}.

Lemma validate_vector_dimensions_cases (vectors : list (list F)) :
  (well_formed vectors ∧ validate_vector_dimensions vectors = (true, [])) ∨
  (¬ well_formed vectors ∧ validate_vector_dimensions vectors = (false, [generic_error])).
Proof.
  destruct vectors as [|first rest].
  { right. split; [by intros [? _]|done]. }
  unfold validate_vector_dimensions.
  destruct (forallb (fun v : list F => Nat.eqb (length v) (length first)) (first :: rest))
    eqn:Hall.
  - left. split; [|done]. split; [done|]. exists (length first).
    apply Forall_forall. intros v Hv%list_elem_of_In.
    rewrite forallb_forall in Hall. by apply Nat.eqb_eq, Hall.
  - right. split; [|done]. intros [Hne [d Hdim]].
    assert (Htrue : forallb (fun v : list F => Nat.eqb (length v) (length first))
                      (first :: rest) = true); [|congruence].
    apply forallb_forall. intros v Hv%list_elem_of_In.
    unfold dimension in Hdim. rewrite Forall_forall in Hdim.
    apply Nat.eqb_eq. rewrite (Hdim v Hv). symmetry. apply Hdim. by left.
Qed.

(** X6.  [validate_vector_dimensions] accepts exactly the inputs that have
    a vector and whose vectors all have one dimension; it prints nothing
    when it accepts and the generic notice, once, when it rejects. *)
Theorem validate_vector_dimensions_iff (vectors : list (vector F)) :
  (validate_vector_dimensions vectors = (true, []) ↔ well_formed vectors) ∧
  (validate_vector_dimensions vectors = (false, [generic_error]) ↔
   ¬ well_formed vectors).
Proof.
  destruct (validate_vector_dimensions_cases vectors) as [[Hwf ->]|[Hwf ->]].
  - split; split; intros; try done; tauto.
  - split; split; intros; try done; tauto.
Qed.

Lemma initialize_centroids_cases (vectors : list (list F)) (k : Z) :
  initialize_centroids vectors k =
    if decide (Z.of_nat (length vectors) <= k) then (Ok None, [invalid_clusters])
    else (Ok (Some (take (Z.to_nat k) vectors, k)), []).
Proof.
  unfold initialize_centroids. case_decide.
  - by rewrite (proj2 (Z.leb_le _ _)).
  - rewrite (proj2 (Z.leb_gt _ _)) by lia.
    unfold range. rewrite comprehension_index_from by lia.
    by rewrite drop_0.
Qed.

(** X7.  [initialize_centroids] rejects [k] with the cluster-count notice
    exactly when [k] is at least the number of vectors; otherwise the
    centroids are the first [k] vectors, in the order of the input (none
    when [k] is not positive), and nothing is printed.  It never raises. *)
Theorem initialize_centroids_first_k (vectors : list (vector F)) (k : Z) :
  (Z.of_nat (length vectors) <= k →
   initialize_centroids vectors k = (Ok None, [invalid_clusters])) ∧
  (k < Z.of_nat (length vectors) →
   ∃ cents,
     initialize_centroids vectors k = (Ok (Some (cents, k)), []) ∧
     length cents = Z.to_nat k ∧
     ∀ i, (i < Z.to_nat k)%nat → cents !! i = vectors !! i).
Proof.
  rewrite initialize_centroids_cases. split; intros Hk.
  - by rewrite decide_True.
  - rewrite decide_False by lia. eexists. split; [done|].
    split; [rewrite length_take; lia|].
    intros i Hi. by rewrite lookup_take_lt.
Qed.

(** When the checks pass, [kmeans_clustering] is its loop, started on the
    first [k] vectors, followed by the printing of the centroids. *)
Lemma kmeans_clustering_run (k max_iter : Z) (vectors : list (list F)) (eps : option F) :
  well_formed vectors → k < Z.of_nat (length vectors) →
  kmeans_clustering k max_iter vectors eps =
    match kmeans_loop max_iter vectors (default default_eps eps)
            (initial_state (take (Z.to_nat k) vectors)) with
    | Raise e => (Raise e, [])
    | Ok st =>
        match clusters st with
        | None => (Raise UnboundLocalError, [])
        | Some cl => (Ok (Some cl), print_results cl (centroids st))
        end
    end.
Proof.
  intros [Hne [d Hdim]] Hk. unfold kmeans_clustering.
  rewrite (validate_vector_dimensions_valid d) by done. simpl.
  rewrite initialize_centroids_cases, decide_False by lia. done.
Qed.

(** X8.  [kmeans_clustering] returns [None] in two cases only, each with
    one notice and nothing else printed: the generic notice when the vectors
    are not well formed, the cluster-count notice when they are and [k] is
    at least their number.  In every other case it returns the buckets or
    raises. *)
Theorem kmeans_clustering_rejections (k max_iter : Z) (vectors : list (vector F))
    (eps : option F) :
  (¬ well_formed vectors →
   kmeans_clustering k max_iter vectors eps = (Ok None, [generic_error])) ∧
  (well_formed vectors → Z.of_nat (length vectors) <= k →
   kmeans_clustering k max_iter vectors eps = (Ok None, [invalid_clusters])) ∧
  (well_formed vectors → k < Z.of_nat (length vectors) →
   (kmeans_clustering k max_iter vectors eps).1 ≠ Ok None).
Proof.
  split; [|split].
  - intros Hnot. unfold kmeans_clustering.
    destruct (validate_vector_dimensions_cases vectors) as [[Hwf _]|[_ ->]]; done.
  - intros [Hne [d Hdim]] Hk. unfold kmeans_clustering.
    rewrite (validate_vector_dimensions_valid d) by done. simpl.
    by rewrite initialize_centroids_cases, decide_True.
  - intros Hwf Hk. rewrite kmeans_clustering_run by done.
    destruct (kmeans_loop _ _ _ _) as [st|e]; [|done].
    by destruct (clusters st).
Qed.

(** X9.  With checked vectors and a [max_iter] that is not positive the
    body of the loop never runs, and [kmeans_clustering] raises
    [UnboundLocalError] when it reads [clusters] to print the results:
    nothing is printed. *)
Theorem kmeans_clustering_no_iteration (k max_iter : Z) (vectors : list (vector F))
    (eps : option F) :
  well_formed vectors → k < Z.of_nat (length vectors) → max_iter <= 0 →
  kmeans_clustering k max_iter vectors eps = (Raise UnboundLocalError, []).
Proof.
  intros Hwf Hk Hiter. rewrite kmeans_clustering_run by done.
  rewrite kmeans_loop_eq. unfold loop_cond. simpl.
  by rewrite (proj2 (Z.ltb_ge 0 max_iter)) by lia.
Qed.

(** X10.  With checked vectors, a [k] that is not positive and a positive
    [max_iter], there is no centroid: the first pass asks [min] for the
    least of no distances and [kmeans_clustering] raises [ValueError]. *)
Theorem kmeans_clustering_no_centroid (k max_iter : Z) (vectors : list (vector F))
    (eps : option F) :
  well_formed vectors → k <= 0 → 1 <= max_iter →
  kmeans_clustering k max_iter vectors eps = (Raise ValueError, []).
Proof.
  intros Hwf Hk Hiter.
  assert (Hlen : k < Z.of_nat (length vectors)).
  { destruct Hwf as [Hne _]. destruct vectors; [done|]. simpl. lia. }
  rewrite kmeans_clustering_run by done.
  replace (Z.to_nat k) with O by lia. rewrite take_0.
  rewrite kmeans_loop_eq. unfold loop_cond. simpl.
  rewrite (proj2 (Z.ltb_lt 0 max_iter)) by lia.
  destruct Hwf as [Hne _]. destruct vectors as [|v vs]; [done|].
  by unfold loop_body, assign_clusters.
Qed.

End Checks.

(** ** Reading the vectors *)

Lemma split_on_nonempty (sep : ascii) (s piece : list ascii) :
  split_on sep piece s ≠ [].
Proof.
  revert piece. induction s as [|c s IH]; intros piece; simpl; [done|].
  destruct (Ascii.eqb c sep); [done|apply IH].
Qed.

Section Reading.
Context {F : Type} `{PyNum F}.

Lemma parse_row_nonempty (line : string) (v : list F) :
  parse_row line = Some v → v ≠ [].
Proof.
  unfold parse_row, py_split. intros Hlen%length_mapM Hv. subst v.
  rewrite length_map in Hlen.
  by destruct (split_on "," [] (String.list_ascii_of_string line)) eqn:Hs;
    [apply split_on_nonempty in Hs|].
Qed.

(** The loop of [read_vectors]: the rows of the lines that are not blank,
    after the rows read before, or nothing when a row does not convert. *)
Lemma read_rows_mapM (lines : list string) (vectors : list (list F)) :
  read_rows lines vectors =
    (fun rows => vectors ++ rows) <$> mapM parse_row (nonblank_lines lines).
Proof.
  revert vectors. induction lines as [|line lines IH]; intros vectors.
  - simpl. by rewrite app_nil_r.
  - unfold nonblank_lines. simpl. fold (nonblank_lines lines).
    destruct (py_strip line) as [|c rest] eqn:Hstrip; simpl; [apply IH|].
    fold (nonblank_lines lines).
    destruct (parse_row (String c rest)) as [v|]; simpl; [|done].
    rewrite IH. destruct (mapM parse_row (nonblank_lines lines)); simpl; [|done].
    by rewrite <- app_assoc.
Qed.

(** X11.  [read_vectors] reads standard input when it has no file name or
    an empty one, and the named file otherwise.  It returns the rows of the
    lines that are not blank, in their order, when there is such a line and
    every field of every such line converts with [float]; in every other
    case, an unreadable file included, it returns nothing at all and prints
    the generic notice. *)
Theorem read_vectors_rows (w : world) (file_arg : option string) :
  read_vectors (F:=F) w file_arg =
    match input_source w file_arg with
    | None => (None, [generic_error])
    | Some lines =>
        match mapM parse_row (nonblank_lines lines) with
        | Some (v :: vs) => (Some (v :: vs), [])
        | _ => (None, [generic_error])
        end
    end.
Proof.
  unfold read_vectors, input_source.
  destruct (match file_arg with
            | Some (String _ _ as name) => open_file w name
            | _ => Some (stdin_lines w)
            end) as [lines|]; [|done].
  rewrite read_rows_mapM.
  by destruct (mapM parse_row (nonblank_lines lines)) as [[|v vs]|].
Qed.

Lemma read_vectors_cases (w : world) (file_arg : option string) :
  (∃ vectors, read_vectors (F:=F) w file_arg = (Some vectors, []) ∧
              vectors ≠ [] ∧ Forall (fun v => v ≠ []) vectors) ∨
  read_vectors (F:=F) w file_arg = (None, [generic_error]).
Proof.
  unfold read_vectors.
  destruct (match file_arg with
            | Some (String _ _ as name) => open_file w name
            | _ => Some (stdin_lines w)
            end) as [lines|]; [|by right].
  rewrite read_rows_mapM.
  destruct (mapM parse_row (nonblank_lines lines)) as [[|v vs]|] eqn:Hrows;
    [by right| |by right].
  left. exists (v :: vs). split; [done|]. split; [done|].
  apply mapM_Some in Hrows. apply Forall_forall. intros v' Hv'.
  apply list_elem_of_lookup in Hv' as [i Hi].
  destruct (Forall2_lookup_r _ _ _ _ _ Hrows Hi) as (line & _ & Hline).
  by eapply parse_row_nonempty.
Qed.

(** X12.  What [read_vectors] returns is never an empty list, and none of
    the vectors it returns is empty: a line that is not blank has at least
    one field.  It prints nothing when it returns vectors and the generic
    notice, once, when it does not. *)
Theorem read_vectors_result (w : world) (file_arg : option string)
    (r : option (list (vector F))) (out : list string) :
  read_vectors w file_arg = (r, out) →
  match r with
  | Some vectors => out = [] ∧ vectors ≠ [] ∧ Forall (fun v => v ≠ []) vectors
  | None => out = [generic_error]
  end.
Proof.
  destruct (read_vectors_cases w file_arg) as [(vectors & Hread & Hne & Hall)|Hread];
    rewrite Hread; by intros [= <- <-].
Qed.

End Reading.

(** ** The arguments and the whole run *)

Lemma parse_command_line_args_Some (args : list string) (k max_iter : Z)
    (file_arg : option string) (out : list string) :
  parse_command_line_args args = (Some (k, max_iter, file_arg), out) →
  out = [] ∧ 1 < k ∧ 1 < max_iter < 1000 ∧
  ∃ arg0 rest,
    args = arg0 :: rest ∧ py_int arg0 = Some k ∧
    ((rest = [] ∧ max_iter = 400 ∧ file_arg = None) ∨
     (∃ arg1, rest = [arg1] ∧ max_iter = 400 ∧ file_arg = Some arg1) ∨
     (∃ arg1 arg2, rest = [arg1; arg2] ∧ py_int arg1 = Some max_iter ∧
                   file_arg = Some arg2)).
Proof.
  unfold parse_command_line_args, MIN_K, MIN_ITER, MAX_ITER, DEFAULT_ITER.
  destruct args as [|arg0 rest]; [done|].
  destruct (py_int arg0) as [k'|] eqn:Hk; [|done].
  destruct (Z.leb_spec k' 1); [done|].
  destruct rest as [|arg1 [|arg2 [|arg3 rest]]].
  - intros [= <- <- <- <-]. repeat split; try lia. exists arg0, []. eauto 10.
  - intros [= <- <- <- <-]. repeat split; try lia. exists arg0, [arg1]. eauto 10.
  - destruct (py_int arg1) as [m|] eqn:Hm; [|done].
    destruct (Z.leb_spec m 1); [done|]. destruct (Z.leb_spec 1000 m); [done|].
    intros [= <- <- <- <-]. repeat split; try lia.
    exists arg0, [arg1; arg2]. eauto 10.
  - done.
Qed.

Lemma parse_command_line_args_None (args : list string) (out : list string) :
  parse_command_line_args args = (None, out) → notice out.
Proof.
  unfold parse_command_line_args, notice.
  destruct args as [|arg0 rest]; [intros [= <-]; tauto|].
  destruct (py_int arg0) as [k|]; [|intros [= <-]; tauto].
  destruct (k <=? MIN_K); [intros [= <-]; tauto|].
  destruct rest as [|arg1 [|arg2 [|arg3 rest]]]; try done.
  - destruct (py_int arg1) as [m|]; [|intros [= <-]; tauto].
    destruct ((m <=? MIN_ITER) || (MAX_ITER <=? m)); [intros [= <-]; tauto|done].
  - intros [= <-]; tauto.
Qed.

(** X13.  What [parse_command_line_args] accepts: there are one, two or
    three arguments, the first reads as an integer [k > 1], [max_iter] is
    400 with fewer than three arguments and else the second argument, an
    integer with [1 < max_iter < 1000], the file is the last argument when
    there are two or three, and nothing is printed. *)
Theorem parse_command_line_args_accepts (args : list string) (k max_iter : Z)
    (file_arg : option string) (out : list string) :
  parse_command_line_args args = (Some (k, max_iter, file_arg), out) →
  out = [] ∧ 1 < k ∧ 1 < max_iter < 1000 ∧
  (1 ≤ length args ≤ 3)%nat ∧
  head args ≫= py_int = Some k ∧
  ((length args < 3)%nat → max_iter = 400) ∧
  (length args = 3%nat → args !! 1%nat ≫= py_int = Some max_iter) ∧
  file_arg = (if Nat.eqb (length args) 1 then None else last args).
Proof.
  intros (-> & Hk & Hiter & arg0 & rest & -> & Hint & Hrest)%parse_command_line_args_Some.
  split; [done|]. split; [done|]. split; [done|].
  destruct Hrest as [(-> & -> & ->)|[(arg1 & -> & -> & ->)|(arg1 & arg2 & -> & Hm & ->)]];
    simpl; rewrite Hint; repeat split; try done; try lia.
Qed.

(** X14.  What [parse_command_line_args] rejects, and in which order: no
    argument gives the generic notice; [k] is checked before the number of
    arguments, so a [k] of at most 1 gives the cluster-count notice however
    many arguments follow; more than three arguments with a good [k] give
    the generic notice; a third argument makes the second one an iteration
    count, which gives the generic notice when it is not an integer.  Every
    rejection prints one of the three notices and nothing else. *)
Theorem parse_command_line_args_rejects :
  parse_command_line_args [] = (None, [generic_error]) ∧
  (∀ arg0 rest k, py_int arg0 = Some k → k <= 1 →
     parse_command_line_args (arg0 :: rest) = (None, [invalid_clusters])) ∧
  (∀ arg0 rest k, py_int arg0 = Some k → 1 < k → (3 ≤ length rest)%nat →
     parse_command_line_args (arg0 :: rest) = (None, [generic_error])) ∧
  (∀ arg0 arg1 arg2 k, py_int arg0 = Some k → 1 < k → py_int arg1 = None →
     parse_command_line_args [arg0; arg1; arg2] = (None, [generic_error])) ∧
  (∀ args out, parse_command_line_args args = (None, out) → notice out).
Proof.
  split; [done|]. split; [|split; [|split]].
  - intros arg0 rest k Hk Hle. unfold parse_command_line_args, MIN_K. rewrite Hk.
    by rewrite (proj2 (Z.leb_le k 1)).
  - intros arg0 rest k Hk Hlt Hlen. unfold parse_command_line_args, MIN_K. rewrite Hk.
    rewrite (proj2 (Z.leb_gt k 1)) by lia.
    destruct rest as [|arg1 [|arg2 [|arg3 rest]]]; simpl in Hlen; try lia. done.
  - intros arg0 arg1 arg2 k Hk Hlt Hm. unfold parse_command_line_args, MIN_K.
    rewrite Hk, Hm. by rewrite (proj2 (Z.leb_gt k 1)) by lia.
  - apply parse_command_line_args_None.
Qed.

Section WholeRun.
Context {F : Type} `{PyNum F}.

(** X15.  A run of [main] ends in one of three ways.  With status 1, after
    printing exactly one of the three notices.  With status 0, after
    printing exactly [k] lines, [k] being the integer read from the first
    argument.  Or with an exception that nothing catches, which can only be
    the [OverflowError] of a square, nothing having been printed. *)
Theorem main_outcomes (w : world) :
  match main (F:=F) w with
  | (Ok code, out) =>
      (code = 1 ∧ notice out) ∨
      (code = 0 ∧ ∃ arg0 rest k, argv w = arg0 :: rest ∧ py_int arg0 = Some k ∧
                                 Z.of_nat (length out) = k)
  | (Raise e, out) => e = OverflowError ∧ out = []
  end.
Proof.
  unfold main.
  destruct (parse_command_line_args (argv w)) as [[[[k max_iter] file_arg]|] out] eqn:Hparse.
  2: { left. split; [done|]. by eapply parse_command_line_args_None. }
  apply parse_command_line_args_Some in Hparse
    as (-> & Hk & Hiter & arg0 & rest & Hargs & Hint & _).
  destruct (read_vectors_cases (F:=F) w file_arg)
    as [(vectors & Hread & Hne & _)|Hread]; rewrite Hread.
  2: { left. split; [done|]. unfold notice. tauto. }
  destruct (validate_vector_dimensions_cases vectors) as [[Hwf Hval]|[Hwf Hval]].
  2: { unfold kmeans_clustering. rewrite Hval. simpl.
       left. split; [done|]. unfold notice. tauto. }
  destruct (decide (Z.of_nat (length vectors) <= k)) as [Hlen|Hlen].
  { unfold kmeans_clustering. rewrite Hval. simpl.
    rewrite initialize_centroids_cases, decide_True by done.
    left. split; [done|]. unfold notice. tauto. }
  rewrite kmeans_clustering_run by (done || lia).
  destruct Hwf as [_ [d Hdim]].
  assert (Hvalid : valid_input d k max_iter vectors).
  { repeat split; try done; lia. }
  pose proof (kmeans_loop_valid d k max_iter vectors (default default_eps None) Hvalid)
    as Hloop.
  destruct (kmeans_loop _ _ _ _) as [st|e]; simpl in Hloop.
  - destruct Hloop as [(Hcount & _ & _) (cl & Hcl & _)]. rewrite Hcl. simpl.
    right. split; [done|]. exists arg0, rest, k.
    split; [done|]. split; [done|].
    unfold print_results. rewrite length_map. lia.
  - by subst e.
Qed.

End WholeRun.

(** ** Printed lines read back *)

Section Printing.
Context {F : Type} `{PyNum F}.

(** X16.  A line that [print_results] prints for a centroid with at least
    one coordinate, none of which is formatted with a comma, splits at the
    commas into the formatted coordinates, as many fields as the centroid
    has coordinates.  The row parser of [read_vectors] returns on such a
    line what [float] returns on these fields: the vector of their values
    when [float] reads every one of them, and nothing otherwise. *)
Theorem printed_line_fields (centroid : vector F) :
  centroid ≠ [] → Forall (fun x => comma_free (fmt4 x)) centroid →
  py_split "," (format_centroid centroid) = map fmt4 centroid ∧
  length (py_split "," (format_centroid centroid)) = length centroid ∧
  parse_row (F:=F) (format_centroid centroid) = mapM pyfloat (map fmt4 centroid) ∧
  (∀ v, parse_row (F:=F) (format_centroid centroid) = Some v ↔
        Forall2 (fun x y => pyfloat (fmt4 x) = Some y) centroid v).
Proof.
  intros Hne Hfree.
  assert (Hsplit : py_split "," (format_centroid centroid) = map fmt4 centroid).
  { unfold py_split, format_centroid.
    rewrite split_on_concat.
    - rewrite map_map. rewrite <- (map_id (map fmt4 centroid)) at 2.
      apply map_ext. intros s. apply String.string_of_list_ascii_of_string.
    - by destruct centroid.
    - apply Forall_forall. intros s Hs.
      apply list_elem_of_In, in_map_iff in Hs as (x & <- & Hx%list_elem_of_In).
      rewrite Forall_forall in Hfree. by apply Hfree. }
  split; [done|]. split; [by rewrite Hsplit, length_map|].
  assert (Hrow : parse_row (F:=F) (format_centroid centroid)
                 = mapM pyfloat (map fmt4 centroid)).
  { unfold parse_row. by rewrite Hsplit. }
  split; [done|]. intros v. rewrite Hrow, mapM_Some.
  change (map fmt4 centroid) with (fmt4 <$> centroid).
  by rewrite Forall2_fmap_l.
Qed.

(** X17.  With no vector to assign, every bucket is empty; and on buckets
    that are all empty [update_centroids] returns the centroids it was
    given and reports convergence, whatever [eps] is. *)
Theorem update_centroids_empty_buckets (cents : list (vector F)) (eps : F) :
  assign_clusters [] cents = Ok (replicate (length cents) []) ∧
  update_centroids (replicate (length cents) []) cents eps = Ok (cents, true).
Proof.
  split; [done|]. rewrite update_centroids_outcomes.
  assert (Hrs : comprehension (centroid_outcome (replicate (length cents) []) cents eps)
                  (range (length cents))
                = Ok ((fun c => (c, false)) <$> cents)).
  { apply comprehension_Ok. apply Forall2_same_length_lookup_2.
    - unfold range. by rewrite length_seq, length_fmap.
    - intros i j r [-> Hi]%lookup_seq Hr. simpl.
      apply list_lookup_fmap_Some in Hr as (c & -> & Hc).
      apply centroid_outcome_empty; [by apply lookup_replicate_2|done]. }
  rewrite Hrs. cbn [mbind res_bind]. f_equal. f_equal.
  - rewrite <- list_fmap_compose. apply list_fmap_id.
  - induction cents as [|c cents IH]; [done|]. simpl. apply IH.
    apply comprehension_Ok, Forall2_same_length_lookup_2.
    + unfold range. by rewrite length_seq, length_fmap.
    + intros i j r [-> Hi]%lookup_seq Hr. simpl.
      apply list_lookup_fmap_Some in Hr as (c' & -> & Hc).
      apply centroid_outcome_empty; [by apply lookup_replicate_2|done].
Qed.

End Printing.

(** ** What the loop leaves *)

Section Final.
Context {F : Type} `{PyNum F}.

(** X18.  When the loop ends after at least one pass, the buckets it
    leaves were assigned to the centroids of the last pass, and the
    centroids and the flag it leaves are the update of these buckets: the
    centroids printed are one update ahead of the buckets returned. *)
Theorem final_buckets_and_centroids (max_iter : Z) (vectors cents : list (vector F))
    (eps : F) (st : loop_state F) (cl : list (list (vector F))) :
  kmeans_loop max_iter vectors eps (initial_state cents) = Ok st →
  clusters st = Some cl →
  ∃ previous,
    assign_clusters vectors previous = Ok cl ∧
    update_centroids cl previous eps = Ok (centroids st, converged st).
Proof.
  intros Hloop Hcl.
  pose proof (kmeans_loop_inv
                (fun st => ∀ cl, clusters st = Some cl →
                   ∃ previous,
                     assign_clusters vectors previous = Ok cl ∧
                     update_centroids cl previous eps = Ok (centroids st, converged st))
                (fun _ => True) max_iter vectors eps (initial_state cents)) as Hinv.
  rewrite Hloop in Hinv. apply Hinv; [|done|done].
  intros st0 _ _. destruct (loop_body vectors eps st0) as [st1|e] eqn:Hbody; [|done].
  apply loop_body_Ok in Hbody as (cl1 & new & flag & Hassign & Hupdate & ->).
  simpl. intros cl' [= <-]. by exists (centroids st0).
Qed.

End Final.

(** * Runs on binary64 floats *)

Module Runs.
Import Binary64.

(** Scenario A: the dummy input with [k = 2] and the default [max_iter]. *)
Example scenario_a :
  main (World ["2"] (fun _ => None) dummy_input)
  = (Ok 0, ["1.0000,2.0000,3.0000"; "5.5000,6.5000,7.5000"]).
Proof. vm_compute. reflexivity. Qed.

(** Scenarios B to F of the specification, and the tester's call for the
    last one: [k] and [max_iter] as arguments, the vectors on standard
    input. *)
Example scenario_b :
  main (World ["1"] (fun _ => None) dummy_input) = (Ok 1, [invalid_clusters]).
Proof. vm_compute. reflexivity. Qed.

Example scenario_c :
  main (World ["4"] (fun _ => None) dummy_input) = (Ok 1, [invalid_clusters]).
Proof. vm_compute. reflexivity. Qed.

Example scenario_d :
  main (World ["2"; "0"; ""] (fun _ => None) dummy_input) = (Ok 1, [invalid_iterations]).
Proof. vm_compute. reflexivity. Qed.

Example scenario_e :
  main (World ["2"] (fun _ => None) ["1,2,3"; "4,5"; "7,8,9"]) = (Ok 1, [generic_error]).
Proof. vm_compute. reflexivity. Qed.

Example scenario_f :
  main (World ["3.0"; "42.0000"] (fun _ => None) dummy_input) = (Ok 1, [generic_error]).
Proof. vm_compute. reflexivity. Qed.

(** [int] does not skip the separator 28 that [str.strip] skips, and stops
    at the limit on the digits. *)
Example int_and_strip_whitespace :
  py_int (String "1" (String (ascii_of_nat 28) EmptyString)) = None ∧
  py_strip (String "1" (String (ascii_of_nat 28) EmptyString)) = "1" ∧
  py_int " +1_0 " = Some 10 ∧
  py_int (String.string_of_list_ascii (replicate 4300 "7"%char)) ≠ None ∧
  py_int (String.string_of_list_ascii (replicate 4301 "7"%char)) = None.
Proof.
  split; [reflexivity|]. split; [reflexivity|]. split; [reflexivity|].
  split; [vm_compute; discriminate|vm_compute; reflexivity].
Qed.

(** A row that reads "nan" becomes a centroid that is not a number and
    takes every vector. *)
Example nan_row_run :
  main (World ["3"] (fun _ => None) ["nan"; "1"; "-1"; "0"])
  = (Ok 0, ["nan"; "1.0000"; "-1.0000"]).
Proof. vm_compute. reflexivity. Qed.

Example default_eps_value : (default_eps =? 0x1.0624dd2f1a9fcp-10)%float = true.
Proof. vm_compute. reflexivity. Qed.

(** C2: a [max_iter] of 1 lies in [1 ≤ max_iter < 1000] and is rejected. *)
Lemma max_iter_one_rejected :
  1 <= 1 < 1000 ∧
  py_int "1" = Some 1 ∧
  parse_command_line_args ["3"; "1"; "input.txt"] = (None, [invalid_iterations]).
Proof. split; [lia|]. split; reflexivity. Qed.

Lemma max_iter_range_witness :
  (1 < 42 < 1000 →
   parse_command_line_args ["3"; "42"; "input.txt"] = (Some (3, 42, Some "input.txt"), [])) ∧
  (¬ 1 < 42 < 1000 →
   parse_command_line_args ["3"; "42"; "input.txt"] = (None, [invalid_iterations])) ∧
  parse_command_line_args ["3"] = (Some (3, 400, None), []) ∧
  (∀ arg, parse_command_line_args ["3"; arg] = (Some (3, 400, Some arg), [])).
Proof.
  apply (max_iter_range "3" "42" "input.txt" 3 42); [reflexivity|lia|reflexivity].
Defined.

(** C3: three centroids at distance 1 from the origin, after one at
    distance 5: the first of the three is chosen. *)

Lemma assign_tie_break_witness :
  ∃ c clusters,
    closest_centroid tie_vector tie_centroids = Ok c ∧ (c ≤ 1)%nat ∧
    assign_clusters [tie_vector] tie_centroids = Ok clusters ∧
    clusters !! c = Some [tie_vector].
Proof.
  destruct (assign_tie_break tie_vector tie_centroids tie_distances)
    as (c & m & dc & clusters & Hc & _ & _ & _ & _ & _ & Hord & Hassign & _ & Hin & _).
  - vm_compute. reflexivity.
  - discriminate.
  - exists c, clusters. split; [exact Hc|]. split; [|split; [exact Hassign|exact Hin]].
    assert (Hordered : ordered tie_distances).
    { apply orderedb_ordered. vm_compute. reflexivity. }
    apply (Hord Hordered 1%nat 1%float eq_refl).
    intros dn Hdn.
    repeat (apply elem_of_cons in Hdn as [->|Hdn]; [reflexivity|]).
    by apply elem_of_nil in Hdn.
Defined.

(** C3: from the origin the centroids of index 1 and 2 are both at distance
    1, no distance is below 1, and the distance of the centroid of index 0
    is not a number: [min] keeps it, and the vector goes to index 0. *)
Lemma nan_distance_chosen :
  ∃ ds d0,
    distances_of origin nan_centroids = Ok ds ∧
    ds !! 0%nat = Some d0 ∧ feq d0 d0 = false ∧
    ds !! 1%nat = Some 1%float ∧ ds !! 2%nat = Some 1%float ∧
    feq 1%float 1%float = true ∧
    (∀ dn, dn ∈ ds → flt dn 1%float = false) ∧
    closest_centroid origin nan_centroids = Ok 0%nat ∧
    assign_clusters [origin] nan_centroids = Ok [[origin]; []; []].
Proof.
  exists [PrimFloat.nan; 1; 1]%float, PrimFloat.nan.
  split; [vm_compute; reflexivity|]. split; [reflexivity|]. split; [reflexivity|].
  split; [reflexivity|]. split; [reflexivity|]. split; [reflexivity|].
  split; [|split; vm_compute; reflexivity].
  intros dn Hdn.
  repeat (apply elem_of_cons in Hdn as [->|Hdn]; [reflexivity|]).
  by apply elem_of_nil in Hdn.
Qed.

(** C4 and C5: a bucket of two points, an empty bucket, and a threshold that
    the movement of the first centroid equals. *)

Example update_two_buckets :
  update_centroids two_buckets two_centroids 1%float
  = Ok ([[1; 2]; [9; 9]]%float, true) ∧
  update_centroids two_buckets two_centroids 0.5%float
  = Ok ([[1; 2]; [9; 9]]%float, false).
Proof. split; vm_compute; reflexivity. Qed.

Lemma update_centroids_mean_witness :
  length [[1; 2]; [9; 9]]%float = length two_centroids ∧
  (∀ j old, two_centroids !! j = Some old →
     ∃ bucket, two_buckets !! j = Some bucket ∧
       match bucket with
       | [] => [[1; 2]; [9; 9]]%float !! j = Some old
       | first :: _ =>
           [[1; 2]; [9; 9]]%float !! j = Some (arithmetic_mean (length first) bucket)
       end) ∧
  (∀ j old st, two_buckets !! j = Some [] → two_centroids !! j = Some old →
     update_step two_buckets two_centroids 1%float st j = Ok (st.1 ++ [old], st.2)).
Proof.
  apply (update_centroids_mean two_buckets two_centroids _ 1%float true).
  vm_compute. reflexivity.
Defined.




Lemma dummy_input_valid : valid_input 3 2 400 dummy_vectors.
Proof.
  split; [discriminate|]. split; [repeat constructor|]. simpl. lia.
Defined.

Lemma cluster_count_and_dimension_witness :
  ∃ st cl,
    kmeans_clustering 2 400 dummy_vectors None
    = (Ok (Some cl), map format_centroid (centroids st)) ∧
    Z.of_nat (length (map format_centroid (centroids st))) = 2 ∧
    ∀ j line, map format_centroid (centroids st) !! j = Some line →
              length (py_split "," line) = 3%nat.
Proof.
  destruct (cluster_count_and_dimension 3 2 400 dummy_vectors None dummy_input_valid)
    as [_ [Hraise|(st & cl & previous & Hrun & _ & Heq & Hcount & _ & _ & _ & _ & Hlines)]].
  - vm_compute in Hraise. discriminate.
  - exists st, cl. split; [exact Heq|]. split; [exact Hcount|].
    intros j line Hline.
    destruct (Hlines j line Hline) as (c & _ & _ & Hc & _ & _ & _ & _ & _ & Hfields).
    apply Hfields; [lia|].
    vm_compute in Hrun. injection Hrun as <-.
    destruct j as [|[|j]]; [| |discriminate]; injection Hc as <-;
      repeat constructor; intros Hin; vm_compute in Hin;
      repeat (destruct Hin as [Hin|Hin]; [discriminate|]); exact Hin.
Defined.

(** C7: a valid input, of dimension 1 with [k = 2], whose run raises in the
    first pass and prints no line. *)
Lemma overflow_prints_no_line :
  valid_input 1 2 400 huge_column ∧
  (kmeans_clustering 2 400 huge_column None).1 = Raise OverflowError ∧
  (kmeans_clustering 2 400 huge_column None).2 = [] ∧
  Z.of_nat (length (kmeans_clustering 2 400 huge_column None).2) ≠ 2.
Proof.
  split.
  - split; [discriminate|]. split; [repeat constructor|]. simpl. lia.
  - split; [vm_compute; reflexivity|]. split; [vm_compute; reflexivity|].
    vm_compute. discriminate.
Qed.


(** C9: squaring the difference between 1e200 and 0 overflows. *)

Lemma kmeans_clustering_overflow :
  valid_input 2 2 400 huge_vectors ∧
  kmeans_clustering 2 400 huge_vectors None = (Raise OverflowError, []).
Proof.
  split.
  - split; [discriminate|]. split; [repeat constructor|]. simpl. lia.
  - vm_compute. reflexivity.
Qed.

Lemma kmeans_clustering_total_witness :
  ∃ st cl,
    kmeans_loop 400 dummy_vectors default_eps (initial_state (take 2 dummy_vectors)) = Ok st ∧
    1 <= curr_iter st ∧ clusters st = Some cl ∧
    kmeans_clustering 2 400 dummy_vectors None
    = (Ok (Some cl), print_results cl (centroids st)).
Proof.
  destruct (kmeans_clustering_total 3 2 400 dummy_vectors None dummy_input_valid)
    as [Hraise|Hrun].
  - vm_compute in Hraise. discriminate.
  - exact Hrun.
Defined.

(** C10: the second of two arguments, "500", names a file. *)
Lemma second_argument_is_file_witness :
  parse_command_line_args ["3"; "500"] = (Some (3, DEFAULT_ITER, Some "500"), []) ∧
  main (World ["3"; "500"] (fun _ => None) dummy_input) = (Ok 1, [generic_error]) ∧
  main (World ["3"; "500"] (fun name => if String.eqb name "500" then Some dummy_input else None) [])
  = (Ok 0, ["1.0000,2.0000,3.0000"; "4.0000,5.0000,6.0000"; "7.0000,8.0000,9.0000"]).
Proof.
  destruct (second_argument_is_file (F:=float) "3" "500" 3 eq_refl ltac:(lia))
    as (Hparse & _ & _ & Hmissing).
  split; [exact Hparse|]. split.
  - apply Hmissing; [discriminate|reflexivity].
  - vm_compute. reflexivity.
Defined.

End Runs.

(** * Further runs on binary64 floats *)

Module MoreRuns.
Import Binary64 Samples.


Lemma assign_clusters_partition_witness :
  length [[[0]; [1]; [2]]; [[10]; [9]]]%float = length line_centroids ∧
  (∀ j, (j < length line_centroids)%nat →
        [[[0]; [1]; [2]]; [[10]; [9]]]%float !! j
        = Some (List.filter (assigned_to line_centroids j) line_points)) ∧
  length (concat [[[0]; [1]; [2]]; [[10]; [9]]]%float) = length line_points.
Proof.
  apply (assign_clusters_partition line_points line_centroids).
  vm_compute. reflexivity.
Defined.

Lemma assign_clusters_raises_witness :
  IndexError = IndexError ∨ IndexError = OverflowError ∨
  (IndexError = ValueError ∧ short_centroids = [] ∧ long_vectors ≠ []).
Proof.
  apply (assign_clusters_raises long_vectors short_centroids IndexError).
  vm_compute. reflexivity.
Defined.

Lemma bucket_mean_dimension_witness :
  (∃ mean, bucket_mean [[1; 2]; [3; 4; 5]]%float = Ok mean ∧ length mean = 2%nat ∧
           bucket_mean (take 2 <$> [[1; 2]; [3; 4; 5]]%float) = Ok mean) ∧
  bucket_mean [[1; 2]; [3]]%float = Raise IndexError.
Proof.
  split.
  - apply (bucket_mean_dimension [1; 2]%float [[3; 4; 5]]%float).
    repeat constructor.
  - apply (bucket_mean_dimension [1; 2]%float [[3]]%float).
    intros Hall. apply Forall_cons in Hall as [_ Hall].
    apply Forall_cons in Hall as [Hshort _]. simpl in Hshort. lia.
Defined.

Lemma update_centroids_raises_witness :
  IndexError = IndexError ∨ IndexError = OverflowError.
Proof.
  apply (update_centroids_raises [] short_centroids 0%float IndexError).
  vm_compute. reflexivity.
Defined.

Lemma dummy_vectors_well_formed : well_formed dummy_vectors.
Proof. split; [discriminate|]. exists 3%nat. repeat constructor. Defined.

Lemma kmeans_clustering_rejections_witness :
  kmeans_clustering 2 400 [[1; 2]; [3]]%float None = (Ok None, [generic_error]) ∧
  kmeans_clustering 4 400 dummy_vectors None = (Ok None, [invalid_clusters]) ∧
  (kmeans_clustering 2 400 dummy_vectors None).1 ≠ Ok None.
Proof.
  split; [|split].
  - apply (kmeans_clustering_rejections 2 400 [[1; 2]; [3]]%float None).
    intros [_ [d Hdim]]. apply Forall_cons in Hdim as [Hd1 Hdim].
    apply Forall_cons in Hdim as [Hd2 _]. simpl in *. lia.
  - apply (kmeans_clustering_rejections 4 400 dummy_vectors None);
      [exact dummy_vectors_well_formed|simpl; lia].
  - apply (kmeans_clustering_rejections 2 400 dummy_vectors None);
      [exact dummy_vectors_well_formed|simpl; lia].
Defined.

Lemma kmeans_clustering_no_iteration_witness :
  kmeans_clustering 2 0 dummy_vectors None = (Raise UnboundLocalError, []).
Proof.
  apply kmeans_clustering_no_iteration;
    [exact dummy_vectors_well_formed|simpl; lia|lia].
Defined.

Lemma kmeans_clustering_no_centroid_witness :
  kmeans_clustering 0 400 dummy_vectors None = (Raise ValueError, []).
Proof.
  apply kmeans_clustering_no_centroid; [exact dummy_vectors_well_formed|lia|lia].
Defined.

Lemma initialize_centroids_first_k_witness :
  initialize_centroids dummy_vectors 4 = (Ok None, [invalid_clusters]) ∧
  ∃ cents,
    initialize_centroids dummy_vectors 2 = (Ok (Some (cents, 2)), []) ∧
    length cents = Z.to_nat 2 ∧
    ∀ i, (i < Z.to_nat 2)%nat → cents !! i = dummy_vectors !! i.
Proof.
  split.
  - apply (initialize_centroids_first_k dummy_vectors 4). simpl. lia.
  - apply (initialize_centroids_first_k dummy_vectors 2). simpl. lia.
Defined.

Lemma read_vectors_result_witness :
  @nil string = [] ∧ [[1; 2]; [3; 4]]%float ≠ [] ∧
  Forall (fun v : list float => v ≠ []) [[1; 2]; [3; 4]]%float.
Proof.
  apply (read_vectors_result (World [] (fun _ => None) spaced_lines) None
           (Some [[1; 2]; [3; 4]]%float) []).
  vm_compute. reflexivity.
Defined.

Lemma parse_command_line_args_accepts_witness :
  @nil string = [] ∧ 1 < 3 ∧ 1 < 42 < 1000 ∧
  (1 ≤ length ["3"; "42"; "input.txt"] ≤ 3)%nat ∧
  head ["3"; "42"; "input.txt"] ≫= py_int = Some 3 ∧
  ((length ["3"; "42"; "input.txt"] < 3)%nat → 42 = 400) ∧
  (length ["3"; "42"; "input.txt"] = 3%nat →
   ["3"; "42"; "input.txt"] !! 1%nat ≫= py_int = Some 42) ∧
  Some "input.txt" =
    (if Nat.eqb (length ["3"; "42"; "input.txt"]) 1 then None
     else last ["3"; "42"; "input.txt"]).
Proof.
  apply (parse_command_line_args_accepts ["3"; "42"; "input.txt"] 3 42
           (Some "input.txt") []).
  reflexivity.
Defined.

Lemma parse_command_line_args_rejects_witness :
  parse_command_line_args ["1"; "a"; "b"; "c"; "d"] = (None, [invalid_clusters]) ∧
  parse_command_line_args ["3"; "a"; "b"; "c"] = (None, [generic_error]) ∧
  parse_command_line_args ["3"; "2.5"; "input.txt"] = (None, [generic_error]).
Proof.
  destruct parse_command_line_args_rejects as (_ & Hk & Hmany & Hiter & _).
  split; [|split].
  - apply (Hk "1" ["a"; "b"; "c"; "d"] 1); [reflexivity|lia].
  - apply (Hmany "3" ["a"; "b"; "c"] 3); [reflexivity|lia|simpl; lia].
  - apply (Hiter "3" "2.5" "input.txt" 3); [reflexivity|lia|reflexivity].
Defined.

Lemma printed_line_fields_witness :
  py_split "," (format_centroid two_coordinates) = ["1.0000"; "2.5000"] ∧
  length (py_split "," (format_centroid two_coordinates)) = 2%nat ∧
  parse_row (format_centroid two_coordinates) = Some two_coordinates.
Proof.
  destruct (printed_line_fields two_coordinates) as (Hsplit & Hlen & Hrow & _).
  - discriminate.
  - repeat constructor; intros Hin; vm_compute in Hin;
      repeat (destruct Hin as [Hin|Hin]; [discriminate|]); exact Hin.
  - split; [exact Hsplit|]. split; [exact Hlen|].
    rewrite Hrow. vm_compute. reflexivity.
Defined.

Lemma final_buckets_and_centroids_witness :
  ∃ st cl previous,
    kmeans_loop 400 dummy_vectors default_eps (initial_state (take 2 dummy_vectors)) = Ok st ∧
    clusters st = Some cl ∧
    assign_clusters dummy_vectors previous = Ok cl ∧
    update_centroids cl previous default_eps = Ok (centroids st, converged st).
Proof.
  remember (kmeans_loop 400 dummy_vectors default_eps
              (initial_state (take 2 dummy_vectors))) as r eqn:Hloop.
  destruct r as [st|e]; [|vm_compute in Hloop; discriminate].
  remember (clusters st) as c eqn:Hcl. destruct c as [cl|].
  - destruct (final_buckets_and_centroids 400 dummy_vectors (take 2 dummy_vectors)
                default_eps st cl (eq_sym Hloop) (eq_sym Hcl)) as (previous & Ha & Hu).
    exists st, cl, previous. split; [reflexivity|]. split; [by symmetry|]. by split.
  - exfalso. assert (Hst : Ok st = kmeans_loop 400 dummy_vectors default_eps
                              (initial_state (take 2 dummy_vectors))) by exact Hloop.
    vm_compute in Hst. injection Hst as ->. discriminate.
Defined.

End MoreRuns.
